(** * sndfilter: the dynamic-range compressor of [src/compressor.c]

    A shallow embedding of [sf_compressor] and of the helpers it calls, and
    the properties of the specification that can be settled on it.

    The C code computes in [float].  Every function of the source is
    written once, over an interface [FloatOps] of the operations the C code
    applies to a [float]; two instances are given:

    - [Binary32]: IEEE-754 single precision out of the Standard Library's
      [SpecFloat] (24-bit significand, round to nearest even, signed zeros,
      infinities and NaN), the functions of [<math.h>] being a parameter;
    - [Exact]: the real numbers, for the statements the specification makes
      ``in exact arithmetic'' about the closed-form curves. *)

From Stdlib Require Import ZArith Bool Lia Reals Lra QArith Qround.
From Stdlib Require Import Floats.SpecFloat.
From stdpp Require Import base option list gmap.

(** The right channel of a sample is called [R] in the source, so the reals
    go by [real] below. *)
Abbreviation real := Rdefinitions.R.

(** ** The operations on [float] that the source uses *)

Class FloatOps (F : Type) := {
  fadd : F -> F -> F;
  fsub : F -> F -> F;
  fmul : F -> F -> F;
  fdiv : F -> F -> F;
  fneg : F -> F;
  fltb : F -> F -> bool;            (* x < y  *)
  fleb : F -> F -> bool;            (* x <= y *)
  feqb : F -> F -> bool;            (* x == y *)
  of_int : Z -> F;                  (* conversion of an [int] to [float] *)
  flit : Z -> Z -> F;               (* the decimal literal n/d, as in 0.05f = 5/100 *)
  M_PI_f : F;                       (* (float)M_PI *)
  to_int : F -> option Z;           (* conversion to [int]; [None]: not representable *)
  powf : F -> F -> F;
  expf : F -> F;
  log10f : F -> F;
  sqrtf : F -> F;
  asinf : F -> F;
  sinf : F -> F
}.

Declare Scope cfloat_scope.
Delimit Scope cfloat_scope with flt.
Infix "+" := fadd : cfloat_scope.
Infix "-" := fsub : cfloat_scope.
Infix "*" := fmul : cfloat_scope.
Infix "/" := fdiv : cfloat_scope.
Notation "- x" := (fneg x) : cfloat_scope.
Infix "<?" := fltb : cfloat_scope.
Infix "<=?" := fleb : cfloat_scope.
Infix "==?" := feqb (at level 70, no associativity) : cfloat_scope.
Notation "x >? y" := (fltb y x) (only parsing) : cfloat_scope.

(** ** Data *)

(** [sf_sample_st]: one stereo sample. *)
Record sf_sample_st (F : Type) := mk_sample { L : F; R : F }.
Arguments mk_sample {F} _ _.
Arguments L {F} _.
Arguments R {F} _.

(** [sf_snd_st]: the sample array, its length and the sample rate. *)
Record sf_snd_st (F : Type) := mk_snd {
  samples : list (sf_sample_st F);
  size : Z;
  rate : Z
}.
Arguments mk_snd {F} _ _ _.
Arguments samples {F} _.
Arguments size {F} _.
Arguments rate {F} _.

Record sf_compressor_params_st (F : Type) := mk_params {
  threshold : F;
  knee : F;
  ratio : F;
  attack : F;
  release : F;
  predelay : F;
  releasezone1 : F;
  releasezone2 : F;
  releasezone3 : F;
  releasezone4 : F;
  postgain : F;
  wet : F
}.
Arguments mk_params {F} _ _ _ _ _ _ _ _ _ _ _ _.
Arguments threshold {F} _.
Arguments knee {F} _.
Arguments ratio {F} _.
Arguments attack {F} _.
Arguments release {F} _.
Arguments predelay {F} _.
Arguments releasezone1 {F} _.
Arguments releasezone2 {F} _.
Arguments releasezone3 {F} _.
Arguments releasezone4 {F} _.
Arguments postgain {F} _.
Arguments wet {F} _.

(** ** The pure helpers of the source *)

Section Curves.
Context {F : Type} {FO : FloatOps F}.
Local Open Scope cfloat_scope.

Definition sf_compressor_defaults : sf_compressor_params_st F :=
  {| threshold := - flit 24 1;
     knee := flit 30 1;
     ratio := flit 12 1;
     attack := flit 3 1000;
     release := flit 250 1000;
     predelay := flit 6 1000;
     releasezone1 := flit 90 1000;
     releasezone2 := flit 160 1000;
     releasezone3 := flit 420 1000;
     releasezone4 := flit 980 1000;
     postgain := flit 0 1;
     wet := flit 1 1 |}.

Definition db2lin (db : F) : F := powf (flit 10 1) (flit 5 100 * db).

Definition lin2db (lin : F) : F := flit 20 1 * log10f lin.

Definition kneecurve (x k linearthreshold : F) : F :=
  linearthreshold + (flit 1 1 - expf (- k * (x - linearthreshold))) / k.

Definition kneeslope (x k linearthreshold : F) : F :=
  k * x / ((k * linearthreshold + flit 1 1) * expf (k * (x - linearthreshold)) - of_int 1).

Definition compcurve (x k slope linearthreshold linearthresholdknee
                      threshold knee kneedboffset : F) : F :=
  if x <? linearthreshold then x
  else if knee <=? flit 0 1 then
    db2lin (threshold + slope * (lin2db x - threshold))
  else if x <? linearthresholdknee then
    kneecurve x k linearthreshold
  else
    db2lin (kneedboffset + slope * (lin2db x - threshold - knee)).

Definition adaptivereleasecurve (x a b c d : F) : F :=
  let x2 := x * x in
  a * x2 * x + b * x2 + c * x + d.

Definition clampf (v min max : F) : F :=
  if v <? min then min else if v >? max then max else v.

Definition absf (v : F) : F :=
  if v <? flit 0 1 then - v else v.

Definition meterout (gaindb : F) : unit := tt.
End Curves.

(** ** Memory: what [malloc], [free] and array indexing can do

    A computation of the C program either runs into undefined behaviour
    ([None]: an array index out of bounds, a remainder by zero, a [float]
    that does not fit the [int] it is converted to) or returns ([Some]).
    Arrays are lists; an index is the C [int], checked against the bounds of
    the array on every access. *)

Definition load {A : Type} (a : list A) (i : Z) : option A :=
  if bool_decide (0 <= i < Z.of_nat (length a))%Z then a !! Z.to_nat i else None.

Definition store {A : Type} (a : list A) (i : Z) (v : A) : option (list A) :=
  if bool_decide (0 <= i < Z.of_nat (length a))%Z then Some (<[Z.to_nat i := v]> a) else None.

(** [a % b] on [int]: undefined for [b = 0], truncated otherwise. *)
Definition int_rem (a b : Z) : option Z :=
  if bool_decide (b = 0)%Z then None else Some (Z.rem a b).

(** The allocator.  [live] is the set of blocks that were handed out and not
    yet freed; [oracle] says, request after request, whether the allocator
    finds memory ([true]) or not (an exhausted oracle always finds some). *)
Record heap := mk_heap {
  live : gset nat;
  next_block : nat;
  oracle : list bool
}.

(** [malloc(sizeof(T) * n)].  A negative [n] converts to a [size_t] beyond
    any address space, so the request fails; otherwise the oracle decides. *)
Definition malloc (n : Z) (h : heap) : option nat * heap :=
  let granted := match oracle h with [] => true | b :: _ => b end in
  let h' := mk_heap (live h) (next_block h) (tail (oracle h)) in
  if bool_decide (n < 0)%Z then (None, h')
  else if granted then
    (Some (next_block h), mk_heap ({[next_block h]} ∪ live h) (Datatypes.S (next_block h)) (tail (oracle h)))
  else (None, h').

Definition free (p : nat) (h : heap) : heap :=
  mk_heap (live h ∖ {[p]}) (next_block h) (oracle h).

(** Modelled from the spec: [sf_snd_new] and [sf_snd_free] are declared in
    the header of the sound type and defined outside [src/].  The first
    takes no argument and returns a newly allocated sound object, or [NULL]
    when the allocation fails; the second releases a sound object together
    with its sample array, if it has one. *)
Definition sf_snd_new (h : heap) : option nat * heap := malloc 1 h.

Definition sf_snd_free (out : nat) (out_samples : option nat) (h : heap) : heap :=
  free out (match out_samples with Some p => free p h | None => h end).

(** ** The compressor *)

(** The envelope follower: the four running values of the chunk loop. *)
Record envelope (F : Type) := mk_envelope {
  detectoravg : F;
  compgain : F;
  maxcompdiffdb : F;
  metergain : F
}.
Arguments mk_envelope {F} _ _ _ _.
Arguments detectoravg {F} _.
Arguments compgain {F} _.
Arguments maxcompdiffdb {F} _.
Arguments metergain {F} _.

(** The values computed once, before the chunk loop (``useful values'',
    knee curve parameters, master gain, release curve).  The module keeps
    the one-letter names of the source out of the way: [Run.k], [Run.a]. *)
Module Run.
Record constants (F : Type) := mk {
  linearthreshold : F;
  slope : F;
  attacksamplesinv : F;
  satreleasesamplesinv : F;
  dry : F;
  meterrelease : F;
  k : F;
  kneedboffset : F;
  linearthresholdknee : F;
  mastergain : F;
  a : F;
  b : F;
  c : F;
  d : F;
  ang90 : F;
  ang90inv : F;
  spacingdb : F
}.
Arguments mk {F} _ _ _ _ _ _ _ _ _ _ _ _ _ _ _ _ _.
Arguments linearthreshold {F} _.
Arguments slope {F} _.
Arguments attacksamplesinv {F} _.
Arguments satreleasesamplesinv {F} _.
Arguments dry {F} _.
Arguments meterrelease {F} _.
Arguments k {F} _.
Arguments kneedboffset {F} _.
Arguments linearthresholdknee {F} _.
Arguments mastergain {F} _.
Arguments a {F} _.
Arguments b {F} _.
Arguments c {F} _.
Arguments d {F} _.
Arguments ang90 {F} _.
Arguments ang90inv {F} _.
Arguments spacingdb {F} _.
End Run.

(** The variables of the sample loop. *)
Record loop_state (F : Type) := mk_loop {
  samplepos : Z;
  delaywritepos : Z;
  delayreadpos : Z;
  delaybuf : list (sf_sample_st F);
  env : envelope F;
  out_samples : list (sf_sample_st F)
}.
Arguments mk_loop {F} _ _ _ _ _ _.
Arguments samplepos {F} _.
Arguments delaywritepos {F} _.
Arguments delayreadpos {F} _.
Arguments delaybuf {F} _.
Arguments env {F} _.
Arguments out_samples {F} _.

Definition samplesperchunk : Z := 32.

Section Compressor.
Context {F : Type} {FO : FloatOps F}.
Local Open Scope cfloat_scope.

(** What an automatic [float] holds when it is read before it was ever
    assigned ([kneedboffset] and [linearthresholdknee] without a knee). *)
Variable uninit : F.

(** The fields of the object that [sf_snd_new] hands back. *)
Variable fresh : sf_snd_st F.

(** [int delaybufsize = snd->rate * params.predelay;] the product is
    taken in [float] and converted to [int]. *)
Definition delaybufsize (snd : sf_snd_st F) (params : sf_compressor_params_st F) : option Z :=
  to_int (of_int (rate snd) * predelay params).

(** [int chunks = snd->size / samplesperchunk;] *)
Definition chunks (snd : sf_snd_st F) : Z := Z.quot (size snd) samplesperchunk.

(** The search of a good [k]: the body of [for (int i = 0; i < 15; i++)],
    [i] counting the rounds that remain. *)
Fixpoint knee_search (i : nat) (xknee linearthreshold slope k mink maxk : F) : F :=
  match i with
  | O => k
  | Datatypes.S i' =>
      let mink' := if kneeslope xknee k linearthreshold <? slope then mink else k in
      let maxk' := if kneeslope xknee k linearthreshold <? slope then k else maxk in
      knee_search i' xknee linearthreshold slope (sqrtf (mink' * maxk')) mink' maxk'
  end.

(** Lines 101 to 162 of the source. *)
Definition run_constants (snd : sf_snd_st F) (params : sf_compressor_params_st F)
  : Run.constants F :=
  let linearthreshold := db2lin (threshold params) in
  let slope := flit 1 1 / ratio params in
  let attacksamples := of_int (rate snd) * attack params in
  let attacksamplesinv := flit 1 1 / attacksamples in
  let releasesamples := of_int (rate snd) * release params in
  let satrelease := flit 25 10000 in
  let satreleasesamplesinv := flit 1 1 / (of_int (rate snd) * satrelease) in
  let dry := flit 1 1 - wet params in
  let meterfalloff := flit 325 1000 in
  let meterrelease := flit 1 1 - expf (- flit 1 1 / (of_int (rate snd) * meterfalloff)) in
  let has_knee := knee params >? flit 0 1 in
  let xknee := db2lin (threshold params + knee params) in
  let k :=
    if has_knee
    then knee_search 15 xknee linearthreshold slope (of_int 5) (flit 1 10) (flit 10000 1)
    else of_int 5 in
  let kneedboffset :=
    if has_knee then lin2db (kneecurve xknee k linearthreshold) else uninit in
  let linearthresholdknee :=
    if has_knee then db2lin (threshold params + knee params) else uninit in
  let fulllevel := compcurve (flit 1 1) k slope linearthreshold linearthresholdknee
                     (threshold params) (knee params) kneedboffset in
  let mastergain := db2lin (postgain params) * powf (flit 1 1 / fulllevel) (flit 6 10) in
  let y1 := releasesamples * releasezone1 params in
  let y2 := releasesamples * releasezone2 params in
  let y3 := releasesamples * releasezone3 params in
  let y4 := releasesamples * releasezone4 params in
  let a := (- y1 + flit 3 1 * y2 - flit 3 1 * y3 + y4) / flit 6 1 in
  let b := y1 - flit 25 10 * y2 + flit 2 1 * y3 - flit 5 10 * y4 in
  let c := (- flit 11 1 * y1 + flit 18 1 * y2 - flit 9 1 * y3 + flit 2 1 * y4) / flit 6 1 in
  let d := y1 in
  let ang90 := M_PI_f * flit 5 10 in
  let ang90inv := flit 2 1 / M_PI_f in
  let spacingdb := flit 5 1 in
  Run.mk linearthreshold slope attacksamplesinv satreleasesamplesinv dry meterrelease
    k kneedboffset linearthresholdknee mastergain a b c d ang90 ang90inv spacingdb.

(** The envelope before the first chunk. *)
Definition envelope0 : envelope F :=
  mk_envelope (flit 0 1) (flit 1 1) (of_int (-1)) (flit 1 1).

(** The head of the chunk loop (lines 164 to 185): from the envelope at
    the start of a chunk, [scaleddesiredgain], [enveloperate] and the new
    [maxcompdiffdb]. *)
Definition chunk_rates (cs : Run.constants F) (e : envelope F) : F * F * F :=
  let desiredgain := detectoravg e in
  let scaleddesiredgain := asinf desiredgain * Run.ang90inv cs in
  let compdiffdb := lin2db (compgain e / scaleddesiredgain) in
  if compdiffdb <? flit 0 1 then
    let x := (clampf compdiffdb (- flit 12 1) (flit 0 1) + flit 12 1) * flit 25 100 in
    let releasesamples := adaptivereleasecurve x (Run.a cs) (Run.b cs) (Run.c cs) (Run.d cs) in
    (scaleddesiredgain, db2lin (Run.spacingdb cs / releasesamples), of_int (-1))
  else
    let maxcompdiffdb' :=
      if (maxcompdiffdb e ==? of_int (-1)) || (maxcompdiffdb e <? compdiffdb)
      then compdiffdb else maxcompdiffdb e in
    let attenuate := if maxcompdiffdb' <? flit 5 10 then flit 5 10 else maxcompdiffdb' in
    (scaleddesiredgain,
     flit 1 1 - powf (flit 25 100 / attenuate) (Run.attacksamplesinv cs),
     maxcompdiffdb').

(** [attenuation] of one input sample (lines 193 to 204). *)
Definition attenuation_of (cs : Run.constants F) (params : sf_compressor_params_st F)
    (x : sf_sample_st F) : F :=
  let inputL := absf (L x) in
  let inputR := absf (R x) in
  let inputmax := if inputL >? inputR then inputL else inputR in
  if inputmax <? flit 1 10000 then flit 1 1
  else
    let inputcomp := compcurve inputmax (Run.k cs) (Run.slope cs) (Run.linearthreshold cs)
                       (Run.linearthresholdknee cs) (threshold params) (knee params)
                       (Run.kneedboffset cs) in
    inputcomp / inputmax.

(** The final gain (lines 230 and 231). *)
Definition premixgain_of (cs : Run.constants F) (compgain : F) : F :=
  sinf (Run.ang90 cs * compgain).

Definition gain_of (cs : Run.constants F) (params : sf_compressor_params_st F)
    (premixgain : F) : F :=
  Run.dry cs + wet params * Run.mastergain cs * premixgain.

(** One sample through the envelope follower (lines 193 to 238): the
    envelope after the sample and the gain to apply. *)
Definition envelope_sample (cs : Run.constants F) (params : sf_compressor_params_st F)
    (scaleddesiredgain enveloperate : F) (e : envelope F) (x : sf_sample_st F)
  : envelope F * F :=
  let attenuation := attenuation_of cs params x in
  let rate :=
    if attenuation >? detectoravg e then
      let attenuationdb := - lin2db attenuation in
      let attenuationdb := if attenuationdb <? flit 2 1 then flit 2 1 else attenuationdb in
      let dbpersample := attenuationdb * Run.satreleasesamplesinv cs in
      db2lin dbpersample - flit 1 1
    else flit 1 1 in
  let detectoravg1 := detectoravg e + (attenuation - detectoravg e) * rate in
  let detectoravg' := if detectoravg1 >? flit 1 1 then flit 1 1 else detectoravg1 in
  let compgain' :=
    if enveloperate <? of_int 1 then
      compgain e + (scaleddesiredgain - compgain e) * enveloperate
    else
      let compgain1 := compgain e * enveloperate in
      if compgain1 >? flit 1 1 then flit 1 1 else compgain1 in
  let premixgain := premixgain_of cs compgain' in
  let gain := gain_of cs params premixgain in
  let premixgaindb := lin2db premixgain in
  let metergain' :=
    if premixgaindb <? metergain e then premixgaindb
    else metergain e + (premixgaindb - metergain e) * Run.meterrelease cs in
  (mk_envelope detectoravg' compgain' (maxcompdiffdb e) metergain', gain).

(** [.L = delaybuf[delayreadpos].L * gain, .R = ... * gain] *)
Definition apply_gain (gain : F) (x : sf_sample_st F) : sf_sample_st F :=
  mk_sample (L x * gain) (R x * gain).

(** The body of the sample loop with its three increments (lines 188 to
    246).  The output array is filled front to back, [samplepos] being the
    number of cells written so far, and is the list of these cells. *)
Definition sample_body (cs : Run.constants F) (params : sf_compressor_params_st F)
    (snd : sf_snd_st F) (size_buf : Z) (scaleddesiredgain enveloperate : F)
    (st : loop_state F) : option (loop_state F) :=
  x ← load (samples snd) (samplepos st);
  buf ← store (delaybuf st) (delaywritepos st) x;
  let '(e', gain) := envelope_sample cs params scaleddesiredgain enveloperate (env st) x in
  delayed ← load buf (delayreadpos st);
  let out' := out_samples st ++ [apply_gain gain delayed] in
  readpos' ← int_rem (delayreadpos st + 1) size_buf;
  writepos' ← int_rem (delaywritepos st + 1) size_buf;
  Some (mk_loop (samplepos st + 1) writepos' readpos' buf e' out').

(** [for (int chi = 0; chi < samplesperchunk; chi++, ...)], [n] counting
    the rounds that remain. *)
Fixpoint sample_loop (n : nat) (cs : Run.constants F) (params : sf_compressor_params_st F)
    (snd : sf_snd_st F) (size_buf : Z) (scaleddesiredgain enveloperate : F)
    (st : loop_state F) : option (loop_state F) :=
  match n with
  | O => Some st
  | Datatypes.S n' =>
      st' ← sample_body cs params snd size_buf scaleddesiredgain enveloperate st;
      sample_loop n' cs params snd size_buf scaleddesiredgain enveloperate st'
  end.

(** One chunk: the rates, then [samplesperchunk] samples, then the meter. *)
Definition chunk_body (cs : Run.constants F) (params : sf_compressor_params_st F)
    (snd : sf_snd_st F) (size_buf : Z) (st : loop_state F) : option (loop_state F) :=
  let '(scaleddesiredgain, enveloperate, maxcompdiffdb') := chunk_rates cs (env st) in
  let e := mk_envelope (detectoravg (env st)) (compgain (env st)) maxcompdiffdb'
             (metergain (env st)) in
  st' ← sample_loop (Z.to_nat samplesperchunk) cs params snd size_buf
           scaleddesiredgain enveloperate
           (mk_loop (samplepos st) (delaywritepos st) (delayreadpos st) (delaybuf st) e
              (out_samples st));
  let _ := meterout (metergain (env st')) in
  Some st'.

(** [for (int ch = 0; ch < chunks; ch++)], [n] counting the chunks that
    remain. *)
Fixpoint chunk_loop (n : nat) (cs : Run.constants F) (params : sf_compressor_params_st F)
    (snd : sf_snd_st F) (size_buf : Z) (st : loop_state F) : option (loop_state F) :=
  match n with
  | O => Some st
  | Datatypes.S n' =>
      st' ← chunk_body cs params snd size_buf st;
      chunk_loop n' cs params snd size_buf st'
  end.

Definition zero_sample : sf_sample_st F := mk_sample (flit 0 1) (flit 0 1).

(** [sf_compressor].  The result is [None] when the run meets undefined
    behaviour; otherwise the returned pointer ([None] for [NULL], else the
    sound object it points to) and the heap the call leaves behind. *)
Definition sf_compressor (snd : sf_snd_st F) (params : sf_compressor_params_st F)
    (h : heap) : option (option (sf_snd_st F) * heap) :=
  size_buf ← delaybufsize snd params;
  let '(delaybuf_p, h1) := malloc size_buf h in
  match delaybuf_p with
  | None => Some (None, h1)
  | Some delaybuf_p =>
      let delaybuf0 := replicate (Z.to_nat size_buf) zero_sample in
      let '(out_p, h2) := sf_snd_new h1 in
      match out_p with
      | None => Some (None, free delaybuf_p h2)
      | Some out_p =>
          let '(samples_p, h3) := malloc (chunks snd * samplesperchunk) h2 in
          match samples_p with
          | None => Some (None, free delaybuf_p (sf_snd_free out_p None h3))
          | Some samples_p =>
              let cs := run_constants snd params in
              st ← chunk_loop (Z.to_nat (chunks snd)) cs params snd size_buf
                     (mk_loop 0 0 1 delaybuf0 envelope0 []);
              Some (Some (mk_snd (out_samples st) (size fresh) (rate fresh)),
                    free delaybuf_p h3)
          end
      end
  end.
End Compressor.

(** ** IEEE-754 single precision *)

Module Binary32.
Definition prec : Z := 24.
Definition emax : Z := 128.

Abbreviation float := spec_float.

(** The functions of [<math.h>] whose results the C standard does not fix
    bit for bit.  ([sqrtf] is correctly rounded and is [SFsqrt].) *)
Class Libm := mk_libm {
  libm_powf : float -> float -> float;
  libm_expf : float -> float;
  libm_log10f : float -> float;
  libm_asinf : float -> float;
  libm_sinf : float -> float
}.

Definition b32_of_int (z : Z) : float := binary_normalize prec emax z 0 false.

(** A decimal literal [n/d] denotes the [float] nearest to the quotient,
    which is what the correctly rounded division of [n] by [d] returns
    when [n] and [d] are themselves representable. *)
Definition b32_lit (n d : Z) : float :=
  SFdiv prec emax (b32_of_int n) (b32_of_int d).

(** [(float)M_PI = 13176795 * 2^-22 = 3.14159274...] *)
Definition b32_pi : float := S754_finite false 13176795 (-22).

(** Conversion to a 32-bit [int]: the fraction is discarded; the
    behaviour is undefined when the integral part does not fit. *)
Definition b32_to_int (x : float) : option Z :=
  match x with
  | S754_zero _ => Some 0%Z
  | S754_finite s m e =>
      let mag := Z.shiftl (Zpos m) e in
      let v := if s then (- mag)%Z else mag in
      if bool_decide (- 2 ^ 31 <= v < 2 ^ 31)%Z then Some v else None
  | _ => None
  end.

Definition is_finite (x : float) : bool :=
  match x with
  | S754_zero _ | S754_finite _ _ _ => true
  | _ => false
  end.

Definition is_zero (x : float) : bool :=
  match x with
  | S754_zero _ => true
  | _ => false
  end.

#[global] Instance ops {M : Libm} : FloatOps float := {|
  fadd := SFadd prec emax;
  fsub := SFsub prec emax;
  fmul := SFmul prec emax;
  fdiv := SFdiv prec emax;
  fneg := SFopp;
  fltb := SFltb;
  fleb := SFleb;
  feqb := SFeqb;
  of_int := b32_of_int;
  flit := b32_lit;
  M_PI_f := b32_pi;
  to_int := b32_to_int;
  powf := libm_powf;
  expf := libm_expf;
  log10f := libm_log10f;
  sqrtf := SFsqrt prec emax;
  asinf := libm_asinf;
  sinf := libm_sinf
|}.

(** [1.0f] *)
Definition one : float := S754_finite false 8388608 (-23).

(** The rational number that a finite single-precision number denotes. *)
Definition B2Q (x : float) : Q :=
  match x with
  | S754_finite s m e =>
      let n := if s then Zneg m else Zpos m in
      if (0 <=? e)%Z then inject_Z (n * 2 ^ e) else n # (2 ^ Z.to_pos (- e))
  | _ => 0%Q
  end.

(** The size of the delay buffer as the specification words it: the product
    of sample rate and pre-delay rounded to the nearest integer, and at
    least one slot.  (The code's own computation is [delaybufsize].) *)
Definition spec_delaybufsize {M : Libm} (snd : sf_snd_st float)
    (params : sf_compressor_params_st float) : Z :=
  Z.max 1 (Qfloor (B2Q (of_int (rate snd) * predelay params)%flt + (1 # 2))).

(** A sample as it sits in memory: two well-formed single-precision
    numbers. *)
Definition valid_sample (x : sf_sample_st float) : Prop :=
  valid_binary prec emax (L x) = true /\ valid_binary prec emax (R x) = true.

Definition nan_sample : sf_sample_st float := mk_sample S754_nan S754_nan.

(** A sample whose two channels are a zero (of either sign). *)
Definition is_zero_sample (x : sf_sample_st float) : bool :=
  is_zero (L x) && is_zero (R x).
End Binary32.

(** ** Exact arithmetic *)

Module Exact.
Definition Rltb (x y : real) : bool := if Rlt_dec x y then true else false.
Definition Rleb (x y : real) : bool := if Rle_dec x y then true else false.
Definition Reqb (x y : real) : bool := if Req_dec_T x y then true else false.

(** Truncation toward zero. *)
Definition R_to_int (x : real) : option Z :=
  Some (if Rle_dec 0 x then Int_part x else (- Int_part (- x))%Z).

#[global] Instance ops : FloatOps real := {|
  fadd := Rplus;
  fsub := Rminus;
  fmul := Rmult;
  fdiv := Rdiv;
  fneg := Ropp;
  fltb := Rltb;
  fleb := Rleb;
  feqb := Reqb;
  of_int := IZR;
  flit := fun n d => (IZR n / IZR d)%R;
  M_PI_f := PI;
  to_int := R_to_int;
  powf := Rpower;
  expf := exp;
  log10f := fun x => (ln x / ln 10)%R;
  sqrtf := sqrt;
  asinf := asin;
  sinf := sin
|}.

(** Two functions glued at [a]: [g] below [a], [h] from [a] on.  This is
    the shape of [compcurve], whose tests are [x < linearthreshold] and
    [x < linearthresholdknee]. *)
Definition glue (g h : real -> real) (a : real) (x : real) : real :=
  if Rltb x a then g x else h x.

(** The ratio segment of the curve is a power law in [x]. *)
Definition powerlaw (A s : real) (x : real) : real := exp (A + s * ln x)%R.
End Exact.

(** ** The delay line and the gain, apart

    The sample loop does two things that do not depend on one another: it
    pushes the input through the delay line, and it runs the envelope
    follower that yields the gain.  The definitions below describe each on
    its own; [sf_compressor_run] proves that the loop computes their
    product. *)

Section Pipeline.
Context {F : Type} {FO : FloatOps F}.
Local Open Scope cfloat_scope.

(** The input at position [m], silence before the first sample. *)
Definition input_at (xs : list (sf_sample_st F)) (m : Z) : sf_sample_st F :=
  if bool_decide (m < 0)%Z then zero_sample
  else default zero_sample (xs !! Z.to_nat m).

(** The sample that leaves a delay line of [size_buf] slots at step [n]. *)
Definition delayed_sample (size_buf : Z) (xs : list (sf_sample_st F)) (n : nat)
  : sf_sample_st F :=
  input_at xs (Z.of_nat n + 1 - size_buf).

(** The samples that leave the delay line during steps [p], ..., [p + n - 1]. *)
Definition delay_line (size_buf : Z) (xs : list (sf_sample_st F)) (p n : nat)
  : list (sf_sample_st F) :=
  delayed_sample size_buf xs <$> seq p n.

(** The envelope follower run on its own over the samples of a chunk. *)
Fixpoint envelope_samples (cs : Run.constants F) (params : sf_compressor_params_st F)
    (scaleddesiredgain enveloperate : F) (e : envelope F) (xs : list (sf_sample_st F))
  : envelope F * list F :=
  match xs with
  | [] => (e, [])
  | x :: xs' =>
      let '(e', gain) := envelope_sample cs params scaleddesiredgain enveloperate e x in
      let '(e'', gains) := envelope_samples cs params scaleddesiredgain enveloperate e' xs' in
      (e'', gain :: gains)
  end.

(** The envelope at the head of a chunk, once [chunk_rates] has updated
    [maxcompdiffdb]. *)
Definition chunk_envelope (cs : Run.constants F) (e : envelope F) : envelope F :=
  mk_envelope (detectoravg e) (compgain e) (chunk_rates cs e).2 (metergain e).

(** The gains of [n] chunks of input. *)
Fixpoint gain_chunks (n : nat) (cs : Run.constants F) (params : sf_compressor_params_st F)
    (e : envelope F) (xs : list (sf_sample_st F)) : list F :=
  match n with
  | O => []
  | Datatypes.S n' =>
      let r := envelope_samples cs params (chunk_rates cs e).1.1 (chunk_rates cs e).1.2
                 (chunk_envelope cs e) (take (Z.to_nat samplesperchunk) xs) in
      r.2 ++ gain_chunks n' cs params r.1 (drop (Z.to_nat samplesperchunk) xs)
  end.

(** The gain that [sf_compressor] applies at each step of its run. *)
Definition gain_trace (uninit : F) (snd : sf_snd_st F) (params : sf_compressor_params_st F)
  : list F :=
  gain_chunks (Z.to_nat (chunks snd)) (run_constants uninit snd params) params
    envelope0 (samples snd).

(** What the sample loop maintains, [p] samples into the run: the two
    cursors, and the last [size_buf] inputs in the slots of the buffer. *)
Record delay_inv (size_buf : Z) (xs : list (sf_sample_st F)) (p : nat)
    (st : loop_state F) : Prop := mk_delay_inv {
  inv_samplepos : samplepos st = Z.of_nat p;
  inv_write : delaywritepos st = (Z.of_nat p mod size_buf)%Z;
  inv_read : delayreadpos st = ((Z.of_nat p + 1) mod size_buf)%Z;
  inv_length : Z.of_nat (length (delaybuf st)) = size_buf;
  inv_slots : forall m : Z, (Z.of_nat p - size_buf <= m < Z.of_nat p)%Z ->
    delaybuf st !! Z.to_nat (m mod size_buf) = Some (input_at xs m)
}.

(** The number of samples that [sf_compressor] writes. *)
Definition output_length (snd : sf_snd_st F) : nat :=
  (Z.to_nat (chunks snd) * Z.to_nat samplesperchunk)%nat.

(** The sound object describes its own array. *)
Definition wf_snd (snd : sf_snd_st F) : Prop :=
  size snd = Z.of_nat (length (samples snd)).

(** One of the three allocations of [sf_compressor] fails: the delay
    buffer, the sound object or the sample array. *)
Definition allocation_fails (size_buf : Z) (snd : sf_snd_st F) (h : heap) : Prop :=
  ((size_buf < 0)%Z \/ oracle h !! 0%nat = Some false) \/
  oracle h !! 1%nat = Some false \/
  ((chunks snd * samplesperchunk < 0)%Z \/ oracle h !! 2%nat = Some false).
End Pipeline.

(** The next [n] requests to the allocator succeed. *)
Definition grants (n : nat) (h : heap) : Prop :=
  Forall (fun b => b = true) (take n (oracle h)).

(** Blocks are handed out in increasing order. *)
Definition wf_heap (h : heap) : Prop :=
  forall p, p ∈ live h -> (p < next_block h)%nat.

(** ** Inputs to run the embedding on *)

Module Examples.
Import Binary32.

(** A stand-in for [<math.h>] that lets the embedding run: every function
    returns 1.  It serves to evaluate the index arithmetic and the memory
    traffic of [sf_compressor] on concrete inputs, where the values that the
    real library computes do not matter. *)
Definition unit_libm : Libm :=
  mk_libm (fun _ _ => one) (fun _ => one) (fun _ => one) (fun _ => one) (fun _ => one).

Definition heap0 : heap := mk_heap ∅ 0 [].

(** A heap whose allocator grants one request and refuses the next. *)
Definition heap_refusing_second : heap := mk_heap ∅ 0 [true; false].

Definition fresh0 : sf_snd_st float := mk_snd [] 0 0.

Definition one_sample : sf_sample_st float := mk_sample one one.

Definition silent_sample : sf_sample_st float :=
  mk_sample (S754_zero false) (S754_zero false).

(** A unit impulse at sample 0, [n] samples long. *)
Definition impulse (n : nat) (rate : Z) : sf_snd_st float :=
  mk_snd (one_sample :: replicate (n - 1) silent_sample) (Z.of_nat n) rate.

Definition silence (n : nat) (rate : Z) : sf_snd_st float :=
  mk_snd (replicate n silent_sample) (Z.of_nat n) rate.

(** [sf_compressor_defaults] in single precision. *)
Definition defaults32 : sf_compressor_params_st float :=
  mk_params (SFopp (b32_lit 24 1)) (b32_lit 30 1) (b32_lit 12 1) (b32_lit 3 1000)
    (b32_lit 250 1000) (b32_lit 6 1000) (b32_lit 90 1000) (b32_lit 160 1000)
    (b32_lit 420 1000) (b32_lit 980 1000) (b32_lit 0 1) (b32_lit 1 1).

Definition with_wet (w : float) (p : sf_compressor_params_st float)
  : sf_compressor_params_st float :=
  mk_params (threshold p) (knee p) (ratio p) (attack p) (release p) (predelay p)
    (releasezone1 p) (releasezone2 p) (releasezone3 p) (releasezone4 p) (postgain p) w.

Definition with_predelay (d : float) (p : sf_compressor_params_st float)
  : sf_compressor_params_st float :=
  mk_params (threshold p) (knee p) (ratio p) (attack p) (release p) d
    (releasezone1 p) (releasezone2 p) (releasezone3 p) (releasezone4 p) (postgain p)
    (wet p).

(** A sound at 44100 Hz and the defaults, in exact arithmetic. *)
Definition exact_snd : sf_snd_st real := mk_snd [] 0 44100.

Definition exact_defaults : sf_compressor_params_st real :=
  @sf_compressor_defaults real Exact.ops.
End Examples.
(** ** Variations of a run

    The runs that the properties of the last part compare with one
    another: a run with another meter, a run on the sound whose two
    channels are exchanged. *)

Section Variations.
Context {F : Type} {FO : FloatOps F}.

(** The constants of a run with another [meterrelease]. *)
Definition with_meterrelease (m : F) (cs : Run.constants F) : Run.constants F :=
  Run.mk (Run.linearthreshold cs) (Run.slope cs) (Run.attacksamplesinv cs)
    (Run.satreleasesamplesinv cs) (Run.dry cs) m (Run.k cs) (Run.kneedboffset cs)
    (Run.linearthresholdknee cs) (Run.mastergain cs) (Run.a cs) (Run.b cs) (Run.c cs)
    (Run.d cs) (Run.ang90 cs) (Run.ang90inv cs) (Run.spacingdb cs).

(** The state of the loop with another [metergain]. *)
Definition with_metergain (g : F) (st : loop_state F) : loop_state F :=
  mk_loop (samplepos st) (delaywritepos st) (delayreadpos st) (delaybuf st)
    (mk_envelope (detectoravg (env st)) (compgain (env st)) (maxcompdiffdb (env st)) g)
    (out_samples st).

(** Two states of the loop that differ at most in [metergain]. *)
Definition same_audio_path (st1 st2 : loop_state F) : Prop :=
  exists g, st1 = with_metergain g st2.

(** The state in which [sf_compressor] enters its loop (lines 154 to 162,
    and the [memset] of line 86). *)
Definition loop_state0 (size_buf : Z) : loop_state F :=
  mk_loop 0 0 1 (replicate (Z.to_nat size_buf) zero_sample) envelope0 [].
End Variations.

Module Channels.
Import Binary32.

Definition is_nan (x : float) : bool :=
  match x with S754_nan => true | _ => false end.

(** The sign bit of a number is clear: [+0], a positive number or
    [+infinity]. *)
Definition sign_clear (x : float) : bool :=
  match x with
  | S754_zero s | S754_infinity s | S754_finite s _ _ => negb s
  | S754_nan => false
  end.

(** The two channels of a sample exchanged. *)
Definition swap_channels (x : sf_sample_st float) : sf_sample_st float :=
  mk_sample (R x) (L x).

Definition swap_sound (snd : sf_snd_st float) : sf_snd_st float :=
  mk_snd (swap_channels <$> samples snd) (size snd) (rate snd).

Definition no_nan_sample (x : sf_sample_st float) : Prop :=
  is_nan (L x) = false /\ is_nan (R x) = false.

(** What [sf_compressor] returns, with the two channels of the returned
    sound exchanged. *)
Definition swap_result (r : option (sf_snd_st float) * heap)
  : option (sf_snd_st float) * heap :=
  (swap_sound <$> r.1, r.2).

Definition swap_state (st : loop_state float) : loop_state float :=
  mk_loop (samplepos st) (delaywritepos st) (delayreadpos st)
    (swap_channels <$> delaybuf st) (env st) (swap_channels <$> out_samples st).

(** A unit impulse on the left channel alone, 32 samples long. *)
Definition left_impulse (rate : Z) : sf_snd_st float :=
  mk_snd (mk_sample Binary32.one (S754_zero false)
            :: replicate 31 (mk_sample (S754_zero false) (S754_zero false))) 32 rate.

(** [sf_compressor_defaults] lies within the ranges that the comments of
    lines 14 to 25 give. *)
Definition within (lo hi x : float) : bool := SFleb lo x && SFleb x hi.

Definition defaults_in_range (p : sf_compressor_params_st float) : bool :=
  within (SFopp (b32_lit 100 1)) (b32_lit 0 1) (threshold p) &&
  within (b32_lit 0 1) (b32_lit 40 1) (knee p) &&
  within (b32_lit 1 1) (b32_lit 20 1) (ratio p) &&
  within (b32_lit 0 1) (b32_lit 1 1) (attack p) &&
  within (b32_lit 0 1) (b32_lit 1 1) (release p) &&
  within (b32_lit 0 1) (releasezone2 p) (releasezone1 p) &&
  within (releasezone1 p) (releasezone3 p) (releasezone2 p) &&
  within (releasezone2 p) (releasezone4 p) (releasezone3 p) &&
  within (releasezone3 p) (b32_lit 1 1) (releasezone4 p) &&
  within (b32_lit 0 1) (b32_lit 1 1) (wet p).
End Channels.

(** ** Parameters at the edge

    A post-gain beyond what single precision holds, and a narrow knee. *)

Module Extremes.
Import Binary32 Examples.

Definition with_postgain (g : float) (p : sf_compressor_params_st float)
  : sf_compressor_params_st float :=
  mk_params (threshold p) (knee p) (ratio p) (attack p) (release p) (predelay p)
    (releasezone1 p) (releasezone2 p) (releasezone3 p) (releasezone4 p) g (wet p).

(** The defaults with a post-gain of 800 dB. *)
Definition loud_params : sf_compressor_params_st float :=
  with_postgain (b32_lit 800 1) defaults32.

(** [powf(10.0f, 40.0f)] overflows: [10^40] is beyond the largest
    single-precision number, [3.4 * 10^38].  ([0.05f * 800.0f] is
    [40.0f].) *)
Definition powf_overflows (M : Libm) : Prop :=
  libm_powf (b32_lit 10 1) (b32_of_int 40) = S754_infinity false.

(** The defaults with a threshold of -50 dB, a knee of 5 dB and a ratio
    of 20. *)
Definition knee_params : sf_compressor_params_st float :=
  mk_params (SFopp (b32_lit 50 1)) (b32_lit 5 1) (b32_lit 20 1) (b32_lit 3 1000)
    (b32_lit 250 1000) (b32_lit 6 1000) (b32_lit 90 1000) (b32_lit 160 1000)
    (b32_lit 420 1000) (b32_lit 980 1000) (b32_lit 0 1) (b32_lit 1 1).
End Extremes.

(** ** A correctly rounded [<math.h>], where it is needed

    [powf], [expf] and [log10f] given by the single-precision number
    nearest to the exact result, at each argument where deriving the
    constants for [knee_params] and evaluating [compcurve] at the upper end
    of the knee and one number below it call them; NaN at any other
    argument.  [asinf] and [sinf] are not called there. *)

Module Rounded.
Import Binary32.

(** Two numbers with the same bits. *)
Definition same_bits (x y : float) : bool :=
  match x, y with
  | S754_zero s, S754_zero s' | S754_infinity s, S754_infinity s' => Bool.eqb s s'
  | S754_nan, S754_nan => true
  | S754_finite s m e, S754_finite s' m' e' =>
      Bool.eqb s s' && Pos.eqb m m' && Z.eqb e e'
  | _, _ => false
  end.

(** A function given by the table of its values. *)
Fixpoint tabled (t : list (float * float)) (x : float) : float :=
  match t with
  | [] => S754_nan
  | (a, r) :: t' => if same_bits a x then r else tabled t' x
  end.

Fixpoint tabled2 (t : list (float * float * float)) (x y : float) : float :=
  match t with
  | [] => S754_nan
  | (a, b, r) :: t' => if same_bits a x && same_bits b y then r else tabled2 t' x y
  end.

(** [10^-2.5], [10^-2.25] and [10^-2.412584...]. *)
Definition powf_table : list (float * float * float) :=
  [ (S754_finite false 10485760 (-20), S754_finite true 10485760 (-22),
     S754_finite false 13581879 (-32));
    (S754_finite false 10485760 (-20), S754_finite true 9437184 (-22),
     S754_finite false 12076188 (-31));
    (S754_finite false 10485760 (-20), S754_finite true 10119111 (-22),
     S754_finite false 16610236 (-32)) ].

(** The exponentials of [kneeslope] in the fifteen rounds of the search
    for [k], then those of [kneecurve] at the two arguments. *)
Definition expf_table : list (float * float) :=
  [ (S754_finite false 13213121 (-30), S754_finite false 8492473 (-23));
    (S754_finite false 9232949 (-24), S754_finite false 14544330 (-23));
    (S754_finite false 15436113 (-22), S754_finite false 10395727 (-18));
    (S754_finite false 11938210 (-23), S754_finite false 8703505 (-21));
    (S754_finite false 9598947 (-22), S754_finite false 10339798 (-20));
    (S754_finite false 12172528 (-22), S754_finite false 9549060 (-19));
    (S754_finite false 13707535 (-22), S754_finite false 13768961 (-19));
    (S754_finite false 14546170 (-22), S754_finite false 8408271 (-18));
    (S754_finite false 14120627 (-22), S754_finite false 15194077 (-19));
    (S754_finite false 14331819 (-22), S754_finite false 15978719 (-19));
    (S754_finite false 14225832 (-22), S754_finite false 15580008 (-19));
    (S754_finite false 14173132 (-22), S754_finite false 15385475 (-19));
    (S754_finite false 14146855 (-22), S754_finite false 15289387 (-19));
    (S754_finite false 14133735 (-22), S754_finite false 15241636 (-19));
    (S754_finite false 14140294 (-22), S754_finite false 15265489 (-19));
    (S754_finite true 14137014 (-22), S754_finite false 9226536 (-28));
    (S754_finite true 14137011 (-22), S754_finite false 9226543 (-28)) ].

(** [log10 0.00386737...] and [log10 0.00562341...]. *)
Definition log10f_table : list (float * float) :=
  [ (S754_finite false 16610240 (-32), S754_finite true 10119111 (-22));
    (S754_finite false 12076188 (-31), S754_finite true 9437184 (-22)) ].

Definition rounded_libm : Libm :=
  mk_libm (tabled2 powf_table) (tabled expf_table) (tabled log10f_table)
    (fun _ => S754_nan) (fun _ => S754_nan).
End Rounded.

(** ** Rounding to nearest

    What the proofs about [SFmul] and [SFadd] speak of: the integers that
    [binary_round_aux] computes with. *)

Module Round.
Import Binary32.
Local Open Scope Z_scope.

(** A finite number that is not negative, as it sits in memory. *)
Definition representable (x : float) : Prop :=
  valid_binary prec emax x = true /\ is_finite x = true /\
  SFleb (S754_zero false) x = true.





End Round.

(** * Properties *)

(** ** The run of [sf_compressor] *)

Section Run_facts.
Context {F : Type} {FO : FloatOps F}.
Local Open Scope cfloat_scope.
Variable uninit : F.
Variable fresh : sf_snd_st F.

Lemma envelope_samples_length cs params sdg rate e xs :
  length (envelope_samples cs params sdg rate e xs).2 = length xs.
Proof.
  revert e. induction xs as [|x xs IH]; intros e; [done|].
  cbn [envelope_samples].
  destruct (envelope_sample cs params sdg rate e x) as [e' g].
  specialize (IH e').
  destruct (envelope_samples cs params sdg rate e' xs) as [e'' gs].
  cbn in *. by rewrite IH.
Qed.

Lemma gain_chunks_length n cs params e xs :
  (n * Z.to_nat samplesperchunk <= length xs)%nat ->
  length (gain_chunks n cs params e xs) = (n * Z.to_nat samplesperchunk)%nat.
Proof.
  revert e xs. induction n as [|n IH]; intros e xs Hlen; [done|].
  cbn [gain_chunks]. rewrite length_app, envelope_samples_length, length_take.
  rewrite IH; [|rewrite length_drop; lia]. lia.
Qed.

Lemma mod_apart (size_buf m p : Z) :
  (0 < p - m < size_buf)%Z -> (m mod size_buf)%Z <> (p mod size_buf)%Z.
Proof.
  intros Hd Heq.
  assert (((p - m) mod size_buf)%Z = 0%Z) as H0.
  { rewrite Zminus_mod, Heq, Z.sub_diag. apply Z.mod_0_l. lia. }
  rewrite Z.mod_small in H0; lia.
Qed.

Lemma to_nat_mod_apart (size_buf m p : Z) :
  (0 < p - m < size_buf)%Z ->
  Z.to_nat (m mod size_buf) <> Z.to_nat (p mod size_buf).
Proof.
  intros Hd Heq. apply (mod_apart size_buf m p Hd).
  pose proof (Z.mod_pos_bound m size_buf ltac:(lia)).
  pose proof (Z.mod_pos_bound p size_buf ltac:(lia)). lia.
Qed.

Lemma load_Some {A} (l : list A) (i : nat) (x : A) :
  l !! i = Some x -> load l (Z.of_nat i) = Some x.
Proof.
  intros Hx. unfold load. pose proof (lookup_lt_Some _ _ _ Hx).
  rewrite bool_decide_eq_true_2 by lia. by rewrite Nat2Z.id.
Qed.

Lemma input_at_lookup xs (p : nat) x :
  xs !! p = Some x -> input_at xs (Z.of_nat p) = x.
Proof.
  intros Hx. unfold input_at. rewrite bool_decide_eq_false_2 by lia.
  by rewrite Nat2Z.id, Hx.
Qed.

Lemma sample_body_spec cs params snd size_buf sdg rate st p x :
  (2 <= size_buf)%Z ->
  delay_inv size_buf (samples snd) p st ->
  samples snd !! p = Some x ->
  exists st',
    sample_body cs params snd size_buf sdg rate st = Some st' /\
    delay_inv size_buf (samples snd) (Datatypes.S p) st' /\
    env st' = (envelope_sample cs params sdg rate (env st) x).1 /\
    out_samples st' = out_samples st ++
      [apply_gain (envelope_sample cs params sdg rate (env st) x).2
         (delayed_sample size_buf (samples snd) p)].
Proof.
  intros HS [Hpos Hw Hr Hlen Hslots] Hx.
  pose proof (Z.mod_pos_bound (Z.of_nat p) size_buf ltac:(lia)) as Hwb.
  pose proof (Z.mod_pos_bound (Z.of_nat p + 1) size_buf ltac:(lia)) as Hrb.
  unfold sample_body. rewrite Hpos, (load_Some _ _ _ Hx). cbn [mbind option_bind].
  unfold store. rewrite Hw, bool_decide_eq_true_2 by lia. cbn [mbind option_bind].
  destruct (envelope_sample cs params sdg rate (env st) x) as [e' gain] eqn:He.
  assert (<[Z.to_nat (Z.of_nat p mod size_buf):=x]> (delaybuf st)
            !! Z.to_nat ((Z.of_nat p + 1) mod size_buf)
          = Some (delayed_sample size_buf (samples snd) p)) as Hdelayed.
  { assert (((Z.of_nat p + 1) mod size_buf)%Z
              = ((Z.of_nat p + 1 - size_buf) mod size_buf)%Z) as Hshift.
    { replace (Z.of_nat p + 1 - size_buf)%Z
        with (Z.of_nat p + 1 + (-1) * size_buf)%Z by lia.
      symmetry. apply Z.mod_add. lia. }
    rewrite Hshift. rewrite list_lookup_insert_ne.
    - apply Hslots. lia.
    - intros Heq. symmetry in Heq. revert Heq. apply to_nat_mod_apart. lia. }
  unfold load. rewrite length_insert, Hr, bool_decide_eq_true_2 by lia.
  rewrite Hdelayed. cbn [mbind option_bind].
  unfold int_rem. rewrite !bool_decide_eq_false_2 by lia. cbn [mbind option_bind].
  eexists. split; [reflexivity|]. split; [|split; reflexivity].
  constructor; cbn [samplepos delaywritepos delayreadpos delaybuf].
  - lia.
  - rewrite Z.rem_mod_nonneg by lia.
    rewrite Zplus_mod_idemp_l. f_equal. lia.
  - rewrite Z.rem_mod_nonneg by lia.
    rewrite Zplus_mod_idemp_l. f_equal. lia.
  - by rewrite length_insert.
  - intros m Hm. destruct (decide (m = Z.of_nat p)) as [->|Hne].
    + rewrite list_lookup_insert_eq by lia.
      by rewrite (input_at_lookup _ _ _ Hx).
    + rewrite list_lookup_insert_ne; [apply Hslots; lia|].
      intros Heq; symmetry in Heq; revert Heq. apply to_nat_mod_apart. lia.
Qed.

Lemma sample_loop_spec cs params snd size_buf sdg rate n :
  forall st p,
  (2 <= size_buf)%Z ->
  delay_inv size_buf (samples snd) p st ->
  (p + n <= length (samples snd))%nat ->
  exists st',
    sample_loop n cs params snd size_buf sdg rate st = Some st' /\
    delay_inv size_buf (samples snd) (p + n) st' /\
    env st' = (envelope_samples cs params sdg rate (env st)
                 (take n (drop p (samples snd)))).1 /\
    out_samples st' = out_samples st ++
      zip_with apply_gain
        (envelope_samples cs params sdg rate (env st) (take n (drop p (samples snd)))).2
        (delay_line size_buf (samples snd) p n).
Proof.
  induction n as [|n IH]; intros st p HS Hinv Hlen.
  - exists st. rewrite Nat.add_0_r. cbn. by rewrite app_nil_r.
  - destruct (lookup_lt_is_Some_2 (samples snd) p ltac:(lia)) as [x Hx].
    destruct (sample_body_spec cs params snd size_buf sdg rate st p x HS Hinv Hx)
      as (st1 & Hbody & Hinv1 & Henv1 & Hout1).
    destruct (IH st1 (Datatypes.S p) HS Hinv1 ltac:(lia))
      as (st' & Hloop & Hinv' & Henv' & Hout').
    exists st'. cbn [sample_loop]. rewrite Hbody. cbn [mbind option_bind].
    rewrite (drop_S _ _ _ Hx). cbn [take envelope_samples].
    rewrite Henv1 in Henv', Hout'.
    destruct (envelope_sample cs params sdg rate (env st) x) as [e1 g1].
    cbn [fst Datatypes.snd] in *.
    destruct (envelope_samples cs params sdg rate e1 (take n (drop (Datatypes.S p) (samples snd))))
      as [e2 gs].
    cbn [fst Datatypes.snd] in *.
    split; [done|]. split.
    { by replace (p + Datatypes.S n)%nat with (Datatypes.S p + n)%nat by lia. }
    split; [done|].
    rewrite Hout', Hout1, <- app_assoc. done.
Qed.

Lemma chunk_body_spec cs params snd size_buf st p :
  (2 <= size_buf)%Z ->
  delay_inv size_buf (samples snd) p st ->
  (p + Z.to_nat samplesperchunk <= length (samples snd))%nat ->
  exists st',
    chunk_body cs params snd size_buf st = Some st' /\
    delay_inv size_buf (samples snd) (p + Z.to_nat samplesperchunk) st' /\
    env st' = (envelope_samples cs params (chunk_rates cs (env st)).1.1
                 (chunk_rates cs (env st)).1.2 (chunk_envelope cs (env st))
                 (take (Z.to_nat samplesperchunk) (drop p (samples snd)))).1 /\
    out_samples st' = out_samples st ++
      zip_with apply_gain
        (envelope_samples cs params (chunk_rates cs (env st)).1.1
           (chunk_rates cs (env st)).1.2 (chunk_envelope cs (env st))
           (take (Z.to_nat samplesperchunk) (drop p (samples snd)))).2
        (delay_line size_buf (samples snd) p (Z.to_nat samplesperchunk)).
Proof.
  intros HS Hinv Hlen. unfold chunk_body, chunk_envelope.
  destruct (chunk_rates cs (env st)) as [[sdg rate] m'].
  cbn [fst Datatypes.snd].
  set (st0 := mk_loop _ _ _ _ _ _).
  assert (delay_inv size_buf (samples snd) p st0) as Hinv0 by (by destruct Hinv).
  destruct (sample_loop_spec cs params snd size_buf sdg rate
              (Z.to_nat samplesperchunk) st0 p HS Hinv0 Hlen)
    as (st' & Hloop & Hinv' & Henv' & Hout').
  exists st'. rewrite Hloop. done.
Qed.

Lemma chunk_loop_spec cs params snd size_buf n :
  forall st p,
  (2 <= size_buf)%Z ->
  delay_inv size_buf (samples snd) p st ->
  (p + n * Z.to_nat samplesperchunk <= length (samples snd))%nat ->
  exists st',
    chunk_loop n cs params snd size_buf st = Some st' /\
    delay_inv size_buf (samples snd) (p + n * Z.to_nat samplesperchunk) st' /\
    out_samples st' = out_samples st ++
      zip_with apply_gain
        (gain_chunks n cs params (env st) (drop p (samples snd)))
        (delay_line size_buf (samples snd) p (n * Z.to_nat samplesperchunk)).
Proof.
  induction n as [|n IH]; intros st p HS Hinv Hlen.
  - exists st. rewrite Nat.add_0_r. cbn. by rewrite app_nil_r.
  - destruct (chunk_body_spec cs params snd size_buf st p HS Hinv ltac:(lia))
      as (st1 & Hbody & Hinv1 & Henv1 & Hout1).
    destruct (IH st1 (p + Z.to_nat samplesperchunk)%nat HS Hinv1 ltac:(lia))
      as (st' & Hloop & Hinv' & Hout').
    exists st'. cbn [chunk_loop]. rewrite Hbody. cbn [mbind option_bind].
    split; [done|]. split.
    { by replace (p + Datatypes.S n * Z.to_nat samplesperchunk)%nat
        with (p + Z.to_nat samplesperchunk + n * Z.to_nat samplesperchunk)%nat by lia. }
    rewrite Hout', Hout1, <- app_assoc. f_equal.
    cbn [gain_chunks]. rewrite Henv1, drop_drop.
    unfold delay_line.
    replace (Datatypes.S n * Z.to_nat samplesperchunk)%nat
      with (Z.to_nat samplesperchunk + n * Z.to_nat samplesperchunk)%nat by lia.
    rewrite seq_app, fmap_app, zip_with_app; [done|].
    rewrite envelope_samples_length, length_fmap, length_seq, length_take, length_drop.
    lia.
Qed.

Lemma delay_inv_init (size_buf : Z) xs :
  (2 <= size_buf)%Z ->
  delay_inv size_buf xs 0
    (mk_loop 0 0 1 (replicate (Z.to_nat size_buf) zero_sample) envelope0 []).
Proof.
  intros HS. constructor; cbn [samplepos delaywritepos delayreadpos delaybuf].
  - done.
  - by rewrite Z.mod_0_l by lia.
  - rewrite Z.mod_small; lia.
  - rewrite length_replicate. lia.
  - intros m Hm. unfold input_at. rewrite bool_decide_eq_true_2 by lia.
    apply lookup_replicate_2.
    pose proof (Z.mod_pos_bound m size_buf ltac:(lia)). lia.
Qed.

Lemma malloc_granted (n : Z) (h : heap) (m : nat) :
  (0 <= n)%Z -> grants (Datatypes.S m) h ->
  malloc n h = (Some (next_block h),
                mk_heap ({[next_block h]} ∪ live h) (Datatypes.S (next_block h))
                  (tail (oracle h))) /\
  grants m (mk_heap ({[next_block h]} ∪ live h) (Datatypes.S (next_block h))
              (tail (oracle h))).
Proof.
  intros Hn Hg. unfold malloc, grants in *.
  rewrite bool_decide_eq_false_2 by lia.
  destruct (oracle h) as [|o os]; cbn [tail oracle] in *.
  - split; [done|]. by rewrite take_nil.
  - cbn [take] in Hg. apply Forall_cons in Hg as [-> Hg]. done.
Qed.

Lemma output_length_le (snd : sf_snd_st F) :
  wf_snd snd -> (output_length snd <= length (samples snd))%nat.
Proof.
  unfold wf_snd, output_length, chunks, samplesperchunk. intros Hwf.
  assert (0 <= size snd)%Z as Hsz by lia.
  pose proof (Z.quot_pos (size snd) 32 Hsz ltac:(lia)).
  pose proof (Z.mul_quot_le (size snd) 32 Hsz ltac:(lia)). lia.
Qed.

(** A run with at least two slots in the delay line, on a well-formed
    sound, with memory for the three allocations: the output is the delay
    line scaled, sample by sample, by the gain; the delay buffer is freed
    and two blocks, the sound object and its sample array, are left. *)
Lemma sf_compressor_run snd params h size_buf :
  delaybufsize snd params = Some size_buf ->
  (2 <= size_buf)%Z ->
  wf_snd snd ->
  grants 3 h ->
  exists h',
    sf_compressor uninit fresh snd params h =
      Some (Some (mk_snd
              (zip_with apply_gain (gain_trace uninit snd params)
                 (delay_line size_buf (samples snd) 0 (output_length snd)))
              (size fresh) (rate fresh)), h') /\
    live h' = {[Datatypes.S (next_block h); Datatypes.S (Datatypes.S (next_block h))]}
                ∪ (live h ∖ {[next_block h]}).
Proof.
  intros HS Hge Hwf Hg. unfold sf_compressor. rewrite HS. cbn [mbind option_bind].
  destruct (malloc_granted size_buf h 2 ltac:(lia) Hg) as [-> Hg1].
  unfold sf_snd_new.
  destruct (malloc_granted 1 _ 1 ltac:(lia) Hg1) as [-> Hg2].
  assert (0 <= chunks snd * samplesperchunk)%Z as Hch.
  { unfold chunks, samplesperchunk, wf_snd in *.
    pose proof (Z.quot_pos (size snd) 32 ltac:(lia) ltac:(lia)). lia. }
  destruct (malloc_granted (chunks snd * samplesperchunk) _ 0 Hch Hg2) as [-> _].
  cbn [next_block live oracle].
  destruct (chunk_loop_spec (run_constants uninit snd params) params snd size_buf
              (Z.to_nat (chunks snd)) _ 0%nat Hge (delay_inv_init size_buf (samples snd) Hge)
              (output_length_le snd Hwf))
    as (st' & -> & _ & Hout).
  cbn [mbind option_bind]. eexists. split.
  - rewrite Hout. cbn [out_samples app]. rewrite drop_0. reflexivity.
  - cbn [free live]. apply set_eq. intros p. set_unfold. intuition lia.
Qed.
Lemma envelope_samples_gain_shape cs params sdg rate e xs :
  Forall (fun g => exists pm, g = gain_of cs params pm)
    (envelope_samples cs params sdg rate e xs).2.
Proof.
  revert e. induction xs as [|x xs IH]; intros e; [by constructor|].
  cbn [envelope_samples].
  destruct (envelope_sample cs params sdg rate e x) as [e' g] eqn:He.
  specialize (IH e').
  destruct (envelope_samples cs params sdg rate e' xs) as [e'' gs].
  cbn [fst snd] in *. constructor; [|done].
  unfold envelope_sample in He. injection He as _ <-. eauto.
Qed.

Lemma gain_chunks_gain_shape n cs params e xs :
  Forall (fun g => exists pm, g = gain_of cs params pm) (gain_chunks n cs params e xs).
Proof.
  revert e xs. induction n as [|n IH]; intros e xs; [by constructor|].
  cbn [gain_chunks]. apply Forall_app. split; [|apply IH].
  apply envelope_samples_gain_shape.
Qed.
Lemma gain_trace_length snd params :
  wf_snd snd -> length (gain_trace uninit snd params) = output_length snd.
Proof.
  intros Hwf. unfold gain_trace. apply gain_chunks_length.
  apply (output_length_le snd Hwf).
Qed.

Lemma delay_line_lookup size_buf xs (n N : nat) :
  (n < N)%nat ->
  delay_line size_buf xs 0 N !! n = Some (input_at xs (Z.of_nat n - (size_buf - 1))).
Proof.
  intros Hn. unfold delay_line. rewrite list_lookup_fmap, lookup_seq_lt by done.
  cbn. unfold delayed_sample. f_equal. f_equal. lia.
Qed.

Lemma sample_body_small_delay cs params snd size_buf sdg rate e :
  (0 <= size_buf < 2)%Z ->
  sample_body cs params snd size_buf sdg rate
    (mk_loop 0 0 1 (replicate (Z.to_nat size_buf) zero_sample) e []) = None.
Proof.
  intros HS. unfold sample_body. cbn [samplepos delaybuf delaywritepos delayreadpos env].
  destruct (load (samples snd) 0) as [x|]; [|done]. cbn [mbind option_bind].
  unfold store. rewrite length_replicate. case_bool_decide; [|done].
  cbn [mbind option_bind].
  destruct (envelope_sample cs params sdg rate e x) as [e' g].
  unfold load. rewrite length_insert, length_replicate.
  by rewrite bool_decide_eq_false_2 by lia.
Qed.

(** With no slot, or with a single slot, in the delay line, the first
    sample already leaves the array: the write at [delaybuf[0]] when there
    is no slot, the read at [delaybuf[1]] when there is one. *)
Lemma sf_compressor_small_delay_undefined snd params h size_buf :
  delaybufsize snd params = Some size_buf ->
  (0 <= size_buf < 2)%Z ->
  (32 <= size snd)%Z ->
  grants 3 h ->
  sf_compressor uninit fresh snd params h = None.
Proof.
  intros HS Hsmall Hsz Hg. unfold sf_compressor. rewrite HS. cbn [mbind option_bind].
  destruct (malloc_granted size_buf h 2 ltac:(lia) Hg) as [-> Hg1].
  unfold sf_snd_new.
  destruct (malloc_granted 1 _ 1 ltac:(lia) Hg1) as [-> Hg2].
  assert (1 <= chunks snd)%Z as Hch.
  { unfold chunks, samplesperchunk.
    apply (Z.quot_le_lower_bound (size snd) 32 1); lia. }
  destruct (malloc_granted (chunks snd * samplesperchunk) _ 0 ltac:(unfold samplesperchunk; lia) Hg2)
    as [-> _].
  destruct (Z.to_nat (chunks snd)) as [|n] eqn:Hn; [lia|].
  cbn [chunk_loop]. unfold chunk_body.
  destruct (chunk_rates _ _) as [[sdg rate] m'].
  cbn [samplepos delaybuf delaywritepos delayreadpos env out_samples].
  change (Z.to_nat samplesperchunk) with 32%nat. cbn [sample_loop].
  by rewrite sample_body_small_delay.
Qed.
Lemma malloc_outcome (n : Z) (h : heap) :
  ((n < 0)%Z \/ oracle h !! 0%nat = Some false) /\
    malloc n h = (None, mk_heap (live h) (next_block h) (tail (oracle h)))
  \/
  ~ ((n < 0)%Z \/ oracle h !! 0%nat = Some false) /\
    malloc n h = (Some (next_block h),
                  mk_heap ({[next_block h]} ∪ live h) (Datatypes.S (next_block h))
                    (tail (oracle h))).
Proof.
  unfold malloc. case_bool_decide as Hn.
  - left. auto.
  - destruct (oracle h) as [|[] os]; cbn.
    + right. split; [|done]. intros [?|?]; [lia|done].
    + right. split; [|done]. intros [?|?]; [lia|done].
    + left. auto.
Qed.


Lemma input_at_early (xs : list (sf_sample_st F)) (m : Z) :
  (m < 0)%Z -> input_at xs m = zero_sample.
Proof. intros Hm. unfold input_at. by rewrite bool_decide_eq_true_2. Qed.

(** The number of samples written is [32 * floor(size / 32)]. *)
Lemma output_length_floor (snd : sf_snd_st F) :
  wf_snd snd -> Z.of_nat (output_length snd) = (32 * (size snd / 32))%Z.
Proof.
  unfold wf_snd, output_length, chunks, samplesperchunk. intros Hwf.
  assert (0 <= size snd)%Z as Hsz by lia.
  rewrite Z.quot_div_nonneg by lia.
  pose proof (Z.div_pos (size snd) 32 Hsz ltac:(lia)). lia.
Qed.

(** The output of a run, sample by sample. *)
Lemma sf_compressor_output snd params h size_buf :
  delaybufsize snd params = Some size_buf ->
  (2 <= size_buf)%Z ->
  wf_snd snd ->
  grants 3 h ->
  exists out h',
    sf_compressor uninit fresh snd params h = Some (Some out, h') /\
    length (samples out) = output_length snd /\
    size out = size fresh /\
    rate out = rate fresh /\
    forall n : nat, (n < output_length snd)%nat ->
      exists g,
        gain_trace uninit snd params !! n = Some g /\
        samples out !! n =
          Some (apply_gain g (input_at (samples snd) (Z.of_nat n - (size_buf - 1)))).
Proof.
  intros HS Hge Hwf Hg.
  destruct (sf_compressor_run snd params h size_buf HS Hge Hwf Hg) as (h' & Hrun & _).
  eexists _, h'. split; [exact Hrun|]. cbn [samples size rate].
  pose proof (gain_trace_length snd params Hwf) as Hlen.
  split; [|split; [done|split; [done|]]].
  - rewrite length_zip_with, Hlen. unfold delay_line.
    rewrite length_fmap, length_seq. lia.
  - intros n Hn.
    destruct (lookup_lt_is_Some_2 (gain_trace uninit snd params) n ltac:(lia)) as [g Hgn].
    exists g. split; [done|].
    rewrite lookup_zip_with, Hgn, (delay_line_lookup _ _ _ _ Hn). done.
Qed.

(** C3, as amended: with a delay buffer of [size_buf >= 2] slots, the
    output sample of step [n] is the input sample of step
    [n - (size_buf - 1)] times the gain of step [n]; during the first
    [size_buf - 1] steps it is silence times the gain.  The delay is one
    sample short of the size of the buffer. *)
Theorem output_is_input_delayed_by_size_minus_1 snd params h size_buf :
  delaybufsize snd params = Some size_buf ->
  (2 <= size_buf)%Z ->
  wf_snd snd ->
  grants 3 h ->
  exists out h',
    sf_compressor uninit fresh snd params h = Some (Some out, h') /\
    length (samples out) = output_length snd /\
    forall n : nat, (n < output_length snd)%nat ->
      exists g,
        gain_trace uninit snd params !! n = Some g /\
        ((Z.of_nat n < size_buf - 1)%Z ->
         samples out !! n = Some (apply_gain g zero_sample)) /\
        (forall (m : nat) (x : sf_sample_st F),
           Z.of_nat n = (Z.of_nat m + (size_buf - 1))%Z ->
           samples snd !! m = Some x ->
           samples out !! n = Some (apply_gain g x)).
Proof.
  intros HS Hge Hwf Hg.
  destruct (sf_compressor_output snd params h size_buf HS Hge Hwf Hg)
    as (out & h' & Hrun & Hlen & _ & _ & Hout).
  exists out, h'. split; [done|]. split; [done|].
  intros n Hn. destruct (Hout n Hn) as (g & Hgn & Hon).
  exists g. split; [done|]. split.
  - intros Hearly. by rewrite Hon, input_at_early by lia.
  - intros m x Hm Hx. rewrite Hon.
    replace (Z.of_nat n - (size_buf - 1))%Z with (Z.of_nat m) by lia.
    by rewrite (input_at_lookup _ _ _ Hx).
Qed.

(** C9: when one of the three allocations fails, [sf_compressor] returns
    [NULL] and leaves the heap as it found it: whatever it had acquired by
    then is released. *)
Theorem allocation_failure_returns_null snd params h size_buf :
  delaybufsize snd params = Some size_buf ->
  wf_heap h ->
  allocation_fails size_buf snd h ->
  exists h',
    sf_compressor uninit fresh snd params h = Some (None, h') /\
    live h' = live h.
Proof.
  intros HS Hwf Hfail. unfold sf_compressor. rewrite HS. cbn [mbind option_bind].
  assert (next_block h ∉ live h) as Hfresh.
  { intros Hin. apply Hwf in Hin. lia. }
  destruct (malloc_outcome size_buf h) as [[_ ->]|[Hok1 ->]].
  { eexists. split; [reflexivity|]. done. }
  unfold sf_snd_new.
  destruct (malloc_outcome 1 (mk_heap ({[next_block h]} ∪ live h)
              (Datatypes.S (next_block h)) (tail (oracle h)))) as [[_ ->]|[Hok2 ->]].
  { eexists. split; [reflexivity|]. cbn [free live]. set_unfold.
    intros p. intuition congruence. }
  cbn [live next_block oracle].
  destruct (malloc_outcome (chunks snd * samplesperchunk)
              (mk_heap ({[Datatypes.S (next_block h)]} ∪ ({[next_block h]} ∪ live h))
                 (Datatypes.S (Datatypes.S (next_block h))) (tail (tail (oracle h)))))
    as [[_ ->]|[Hok3 ->]].
  { eexists. split; [reflexivity|]. unfold sf_snd_free. cbn [free live].
    apply set_eq. intros p. set_unfold.
    assert (p ∈ live h -> p < next_block h)%nat by apply Hwf.
    intuition lia. }
  exfalso. unfold allocation_fails in *. cbn [oracle] in *.
  destruct (oracle h) as [|o1 [|o2 [|o3 os]]]; cbn in *; intuition (lia || congruence).
Qed.
End Run_facts.

(** ** Single precision *)

Module Binary32_facts.
Import Binary32 Examples.

Lemma digits2_pos_shift23 (m : positive) :
  Zpos (digits2_pos (8388608 * m)) = (Zpos (digits2_pos m) + 23)%Z.
Proof. simpl. rewrite !Pos2Z.inj_succ, Pos.mul_1_l. lia. Qed.

Lemma shr_23 (m : positive) :
  SpecFloat.iter_pos shr_1 23%positive (Build_shr_record (Zpos (8388608 * m)) false false)
  = Build_shr_record (Zpos m) false false.
Proof. simpl. rewrite Pos.mul_1_l. reflexivity. Qed.

(** Multiplying by [1.0f] is exact. *)
Lemma SFmul_one_r (x : float) :
  valid_binary prec emax x = true -> SFmul prec emax x one = x.
Proof.
  destruct x as [s|s| |s m e]; try reflexivity.
  - by destruct s.
  - by destruct s.
  - cbn [valid_binary]. unfold bounded, canonical_mantissa.
    intros Hb. apply andb_prop in Hb as [Hc He].
    apply Z.eqb_eq in Hc.
    unfold one. cbn [SFmul]. rewrite xorb_false_r, Pos.mul_comm.
    unfold binary_round_aux, shr_fexp.
    cbn [Zdigits2]. rewrite digits2_pos_shift23.
    replace (Z.pos (digits2_pos m) + 23 + (e + -23))%Z
      with (Z.pos (digits2_pos m) + e)%Z by lia.
    rewrite Hc.
    replace (e - (e + -23))%Z with 23%Z by lia.
    cbn [shr shr_record_of_loc]. rewrite shr_23.
    cbn [shr_m loc_of_shr_record round_nearest_even Zdigits2].
    replace (e + -23 + 23)%Z with e by lia.
    rewrite Hc, Z.sub_diag. cbn [shr shr_m shr_record_of_loc].
    by rewrite He.
Qed.

Lemma SFmul_nan_r (x : float) : SFmul prec emax x S754_nan = S754_nan.
Proof. by destruct x. Qed.

Lemma SFmul_zero_not_one (g : float) : SFmul prec emax (S754_zero false) g <> one.
Proof. by destruct g. Qed.

(** With [wet = +0] the gain is [1.0f], or NaN when [mastergain] or
    [premixgain] is an infinity or NaN. *)
Lemma gain_wet0 (mg pm : float) :
  let g := SFadd prec emax one
             (SFmul prec emax (SFmul prec emax (S754_zero false) mg) pm) in
  g = one \/ g = S754_nan.
Proof.
  destruct mg as [s|s| |s m e]; destruct pm as [s'|s'| |s' m' e'];
    cbn; auto; try (destruct s; cbn; auto; fail).
Qed.

Section With_libm.
Context {M : Libm}.

Lemma apply_gain_one (x : sf_sample_st float) :
  valid_sample x -> apply_gain one x = x.
Proof.
  intros [HL HR]. destruct x as [l r]. unfold apply_gain. cbn [L R fmul ops] in *.
  by rewrite !SFmul_one_r.
Qed.

Lemma apply_gain_nan (x : sf_sample_st float) : apply_gain S754_nan x = nan_sample.
Proof.
  destruct x as [l r]. unfold apply_gain, nan_sample. cbn [L R fmul ops].
  by rewrite !SFmul_nan_r.
Qed.

Lemma apply_gain_zero (g : float) :
  is_finite g = true -> is_zero_sample (apply_gain g zero_sample) = true.
Proof. by destruct g. Qed.

Lemma apply_gain_not_finite (g : float) :
  is_finite g = false -> apply_gain g zero_sample = nan_sample.
Proof. by destruct g. Qed.

Lemma dry_wet0 uninit snd params :
  wet params = S754_zero false -> Run.dry (run_constants uninit snd params) = one.
Proof. intros Hwet. cbn [run_constants Run.dry]. by rewrite Hwet. Qed.

Lemma gain_trace_wet0 uninit snd params (n : nat) (g : float) :
  wet params = S754_zero false ->
  gain_trace uninit snd params !! n = Some g ->
  g = one \/ g = S754_nan.
Proof.
  intros Hwet Hgn.
  pose proof (gain_chunks_gain_shape (Z.to_nat (chunks snd))
                (run_constants uninit snd params) params envelope0 (samples snd)) as Hshape.
  rewrite Forall_lookup in Hshape.
  destruct (Hshape n g Hgn) as [pm ->].
  unfold gain_of. rewrite (dry_wet0 uninit snd params Hwet), Hwet.
  apply gain_wet0.
Qed.

(** C1, as amended: with [wet = +0] and a delay buffer of [size_buf >= 2]
    slots, the gain of every step is exactly [1.0f] and the output sample
    of step [n] is, bit for bit, the input sample of step
    [n - (size_buf - 1)] (and [+0] during the first [size_buf - 1] steps);
    or else the gain is NaN, which happens when [mastergain] or
    [premixgain] is not a finite number, and so is the output sample. *)
Theorem wet0_output_is_delayed_input (uninit : float) (fresh snd : sf_snd_st float)
    (params : sf_compressor_params_st float) (h : heap) (size_buf : Z) :
  wet params = S754_zero false ->
  delaybufsize snd params = Some size_buf ->
  (2 <= size_buf)%Z ->
  wf_snd snd ->
  Forall valid_sample (samples snd) ->
  grants 3 h ->
  exists out h',
    sf_compressor uninit fresh snd params h = Some (Some out, h') /\
    length (samples out) = output_length snd /\
    forall n : nat, (n < output_length snd)%nat ->
      exists g,
        gain_trace uninit snd params !! n = Some g /\
        ((g = one /\
          ((Z.of_nat n < size_buf - 1)%Z -> samples out !! n = Some silent_sample) /\
          (forall (m : nat) (x : sf_sample_st float),
             Z.of_nat n = (Z.of_nat m + (size_buf - 1))%Z ->
             samples snd !! m = Some x ->
             samples out !! n = Some x)) \/
         (g = S754_nan /\ samples out !! n = Some nan_sample)).
Proof.
  intros Hwet HS Hge Hwf Hvalid Hg.
  destruct (sf_compressor_output uninit fresh snd params h size_buf HS Hge Hwf Hg)
    as (out & h' & Hrun & Hlen & _ & _ & Hout).
  exists out, h'. split; [done|]. split; [done|].
  intros n Hn. destruct (Hout n Hn) as (g & Hgn & Hon).
  exists g. split; [done|].
  destruct (gain_trace_wet0 uninit snd params n g Hwet Hgn) as [-> | ->].
  - left. split; [done|]. split.
    + intros Hearly. rewrite Hon, input_at_early by lia.
      by rewrite apply_gain_one.
    + intros m x Hm Hx. rewrite Hon.
      replace (Z.of_nat n - (size_buf - 1))%Z with (Z.of_nat m) by lia.
      rewrite (input_at_lookup _ _ _ Hx), apply_gain_one; [done|].
      by eapply Forall_lookup_1.
  - right. split; [done|]. by rewrite Hon, apply_gain_nan.
Qed.

(** C10, as amended: with a delay buffer of [size_buf >= 2] slots, each of
    the first [size_buf - 1] output samples is the product of [+0], read
    from a slot of the zeroed buffer that was not written yet, and the
    gain, whatever the input holds: a zero in both channels when the gain
    is a finite number, a NaN in both channels when the gain is an
    infinity or a NaN. *)
Theorem leading_output_samples_are_zero (uninit : float) (fresh snd : sf_snd_st float)
    (params : sf_compressor_params_st float) (h : heap) (size_buf : Z) :
  delaybufsize snd params = Some size_buf ->
  (2 <= size_buf)%Z ->
  wf_snd snd ->
  grants 3 h ->
  exists out h',
    sf_compressor uninit fresh snd params h = Some (Some out, h') /\
    forall n : nat, (n < output_length snd)%nat -> (Z.of_nat n < size_buf - 1)%Z ->
      exists g o,
        gain_trace uninit snd params !! n = Some g /\
        samples out !! n = Some o /\
        o = apply_gain g silent_sample /\
        (is_finite g = true -> is_zero_sample o = true) /\
        (is_finite g = false -> o = nan_sample).
Proof.
  intros HS Hge Hwf Hg.
  destruct (sf_compressor_output uninit fresh snd params h size_buf HS Hge Hwf Hg)
    as (out & h' & Hrun & Hlen & _ & _ & Hout).
  exists out, h'. split; [done|].
  intros n Hn Hlead. destruct (Hout n Hn) as (g & Hgn & Hon).
  exists g, (apply_gain g silent_sample).
  split; [done|]. split.
  - by rewrite Hon, input_at_early by lia.
  - split; [done|]. split; [apply apply_gain_zero|apply apply_gain_not_finite].
Qed.

(** C2, as amended: the delay buffer has as many slots as the product of
    sample rate and pre-delay, taken in single precision, has whole units:
    the conversion to [int] discards the fraction (it rounds toward zero,
    not to the nearest integer). *)
Theorem delaybufsize_truncates (snd : sf_snd_st float)
    (params : sf_compressor_params_st float) (size_buf : Z) :
  delaybufsize snd params = Some size_buf ->
  let product := (of_int (rate snd) * predelay params)%flt in
  ((0 <= B2Q product)%Q -> size_buf = Qfloor (B2Q product)) /\
  ((B2Q product <= 0)%Q -> size_buf = Qceiling (B2Q product)).
Proof.
  intros Hsize product. unfold delaybufsize in Hsize. cbn [to_int ops] in Hsize.
  change (b32_to_int product = Some size_buf) in Hsize.
  destruct product as [s|s| |s m e]; cbn [b32_to_int B2Q] in *; try discriminate.
  - injection Hsize as <-. done.
  - case_bool_decide; [|discriminate]. injection Hsize as <-.
    destruct (Z.leb_spec 0 e) as [He|He].
    + rewrite Z.shiftl_mul_pow2 by lia. unfold Qceiling.
      destruct s; cbn [Qopp inject_Z Qnum Qden Qfloor]; rewrite ?Z.div_1_r.
      * split; [intros Hq; unfold Qle in Hq; cbn in Hq; nia|intros _; lia].
      * split; [done|]. intros Hq. unfold Qle in Hq. cbn in Hq. nia.
    + assert (Z.shiftl (Z.pos m) e = Z.pos m / 2 ^ (- e))%Z as ->.
      { rewrite <- (Z.opp_involutive e) at 1.
        rewrite Z.shiftl_opp_r, Z.shiftr_div_pow2 by lia. done. }
      assert (Z.pos (2 ^ Z.to_pos (- e)) = 2 ^ (- e))%Z as Hpow.
      { rewrite Pos2Z.inj_pow, Z2Pos.id by lia. done. }
      unfold Qceiling.
      destruct s; cbn [Qopp Qnum Qden Qfloor]; rewrite Hpow.
      * change (- Z.neg m)%Z with (Z.pos m).
        split; [intros Hq; unfold Qle in Hq; cbn in Hq; lia|done].
      * split; [done|]. intros Hq. unfold Qle in Hq. cbn in Hq. lia.
Qed.

Lemma defaults32_eq : sf_compressor_defaults = defaults32.
Proof. reflexivity. Qed.

Lemma delaybufsize_defaults (snd : sf_snd_st float) (w : float) :
  rate snd = 44100%Z -> delaybufsize snd (with_wet w defaults32) = Some 264%Z.
Proof. intros Hrate. unfold delaybufsize. rewrite Hrate. reflexivity. Qed.

Lemma delaybufsize_no_predelay (snd : sf_snd_st float) :
  rate snd = 44100%Z ->
  delaybufsize snd (with_predelay (S754_zero false) defaults32) = Some 0%Z.
Proof. intros Hrate. unfold delaybufsize. rewrite Hrate. reflexivity. Qed.

(** C4: on thirty-two samples of silence at 44100 Hz, with the default
    parameters, [sf_compressor] fills an array of thirty-two samples and
    returns a sound object whose [size] and [rate] are the ones
    [sf_snd_new] had put there: it assigns neither field. *)
Theorem sf_compressor_leaves_size_and_rate_unset (uninit : float)
    (fresh : sf_snd_st float) :
  exists out h',
    sf_compressor uninit fresh (silence 32 44100) defaults32 heap0
      = Some (Some out, h') /\
    length (samples out) = 32%nat /\
    size out = size fresh /\
    rate out = rate fresh.
Proof.
  destruct (sf_compressor_output uninit fresh (silence 32 44100) defaults32 heap0 264
              (delaybufsize_defaults (silence 32 44100) _ eq_refl) ltac:(lia) eq_refl
              ltac:(constructor))
    as (out & h' & Hrun & Hlen & Hsize & Hrate & _).
  by exists out, h'.
Qed.

(** C7: on thirty-two samples of silence at 44100 Hz, with the default
    parameters but no pre-delay, the delay buffer has no slot and the very
    first sample is stored outside of it: the run has undefined behaviour
    and produces no output. *)
Theorem silence_without_predelay_is_undefined (uninit : float)
    (fresh : sf_snd_st float) :
  sf_compressor uninit fresh (silence 32 44100)
    (with_predelay (S754_zero false) defaults32) heap0 = None.
Proof.
  apply (sf_compressor_small_delay_undefined uninit fresh _ _ heap0 0).
  - by apply delaybufsize_no_predelay.
  - lia.
  - cbn. lia.
  - constructor.
Qed.

(** Silence in, silence out, when the delay buffer has at least two slots:
    every input sample takes the unity-attenuation branch, and every
    output sample is [+0] times the gain. *)
Lemma silence_in_silence_out (uninit : float) (fresh snd : sf_snd_st float)
    (params : sf_compressor_params_st float) (h : heap) (size_buf : Z) :
  delaybufsize snd params = Some size_buf ->
  (2 <= size_buf)%Z ->
  wf_snd snd ->
  Forall (fun x => x = silent_sample) (samples snd) ->
  grants 3 h ->
  (forall cs, attenuation_of cs params silent_sample = one) /\
  exists out h',
    sf_compressor uninit fresh snd params h = Some (Some out, h') /\
    forall n : nat, (n < output_length snd)%nat ->
      exists g o,
        gain_trace uninit snd params !! n = Some g /\
        samples out !! n = Some o /\
        o = apply_gain g silent_sample /\
        (is_finite g = true -> is_zero_sample o = true).
Proof.
  intros HS Hge Hwf Hsilent Hg. split; [done|].
  destruct (sf_compressor_output uninit fresh snd params h size_buf HS Hge Hwf Hg)
    as (out & h' & Hrun & Hlen & _ & _ & Hout).
  exists out, h'. split; [done|].
  intros n Hn. destruct (Hout n Hn) as (g & Hgn & Hon).
  exists g, (apply_gain g silent_sample).
  split; [done|]. split; [|split; [done|apply apply_gain_zero]].
  rewrite Hon. f_equal. f_equal. unfold input_at. case_bool_decide; [done|].
  destruct (samples snd !! Z.to_nat (Z.of_nat n - (size_buf - 1))) as [x|] eqn:Hx; [|done].
  cbn. by apply (Forall_lookup_1 _ _ _ _ Hsilent Hx).
Qed.
(** The head of the first chunk divides by zero.  Annex F of the C standard
    has [asinf(+0) = +0]; the envelope starts with [detectoravg = 0], so
    [scaleddesiredgain] is [+0] and [compgain / scaleddesiredgain] is
    [1 / 0]: an infinity in IEEE arithmetic, and without meaning in exact
    arithmetic. *)
Lemma first_chunk_divides_by_zero (uninit : float) (snd : sf_snd_st float)
    (params : sf_compressor_params_st float) :
  libm_asinf (S754_zero false) = S754_zero false ->
  let cs := run_constants uninit snd params in
  let scaleddesiredgain := (asinf (detectoravg envelope0) * Run.ang90inv cs)%flt in
  scaleddesiredgain = S754_zero false /\
  (compgain envelope0 / scaleddesiredgain)%flt = S754_infinity false.
Proof.
  intros Hasin cs scaleddesiredgain.
  assert (scaleddesiredgain = S754_zero false) as ->; [|done].
  unfold scaleddesiredgain, cs. cbn [run_constants Run.ang90inv detectoravg envelope0].
  cbn [asinf ops]. change (flit 0 1) with (S754_zero false). by rewrite Hasin.
Qed.
End With_libm.

(** C1 fails as stated: with [wet = +0], the default pre-delay (264 slots
    at 44100 Hz) and a unit impulse at sample 0, whatever [<math.h>]
    computes, the first output sample is not the first input sample. *)
Lemma wet0_first_sample_is_not_the_input :
  ~ exists (M : Libm) (uninit : float) (fresh out : sf_snd_st float) (h' : heap),
      sf_compressor uninit fresh (impulse 32 44100)
        (with_wet (S754_zero false) defaults32) heap0 = Some (Some out, h') /\
      samples out !! 0%nat = samples (impulse 32 44100) !! 0%nat.
Proof.
  intros (M & uninit & fresh & out & h' & Hrun & Hfirst).
  destruct (sf_compressor_output uninit fresh (impulse 32 44100)
              (with_wet (S754_zero false) defaults32) heap0 264%Z
              (delaybufsize_defaults (impulse 32 44100) _ eq_refl)
              ltac:(lia) eq_refl ltac:(constructor))
    as (out' & h'' & Hrun' & _ & _ & _ & Hout).
  rewrite Hrun in Hrun'. injection Hrun' as <- <-.
  destruct (Hout 0%nat ltac:(vm_compute; lia)) as (g & _ & Hg).
  rewrite Hfirst in Hg. cbn in Hg. injection Hg as HL _.
  symmetry in HL. by apply SFmul_zero_not_one in HL.
Qed.

(** The hypotheses of a theorem at a concrete input: each is decided by
    evaluation. *)
Ltac concrete := first [reflexivity | lia | by repeat constructor].

Lemma wet0_output_is_delayed_input_witness :
  wet (with_wet (S754_zero false) defaults32) = S754_zero false /\
  exists out h',
    @sf_compressor float (@ops unit_libm) S754_nan fresh0 (impulse 288 44100)
      (with_wet (S754_zero false) defaults32) heap0 = Some (Some out, h') /\
    length (samples out) = 288%nat /\
    samples out !! 262%nat = Some silent_sample /\
    samples out !! 263%nat = Some one_sample.
Proof.
  split; [reflexivity|].
  destruct (@wet0_output_is_delayed_input unit_libm S754_nan fresh0 (impulse 288 44100)
              (with_wet (S754_zero false) defaults32) heap0 264%Z)
    as (out & h' & Hrun & Hlen & Hout); [concrete..|].
  exists out, h'. split; [exact Hrun|]. split; [exact Hlen|].
  split.
  {
    destruct (Hout 262%nat ltac:(vm_compute; lia)) as (g & Hg & [(_ & Hz & _)|[Hn _]]).
    - apply Hz. lia.
    - vm_compute in Hg. congruence. }
  destruct (Hout 263%nat ltac:(vm_compute; lia)) as (g & Hg & [(_ & _ & Hx)|[Hn _]]).
  - apply (Hx 0%nat); [lia|reflexivity].
  - vm_compute in Hg. congruence.
Defined.

(** C2 fails as stated: at 44100 Hz the default pre-delay of 0.006 s gives
    264 slots where rounding gives 265, and no pre-delay gives no slot at
    all. *)
Lemma delaybufsize_is_not_rounded :
  @delaybufsize float (@ops unit_libm) (silence 32 44100) defaults32 = Some 264%Z /\
  @spec_delaybufsize unit_libm (silence 32 44100) defaults32 = 265%Z /\
  @delaybufsize float (@ops unit_libm) (silence 32 44100)
    (with_predelay (S754_zero false) defaults32) = Some 0%Z.
Proof. repeat split; reflexivity. Qed.

Lemma delaybufsize_truncates_witness :
  @delaybufsize float (@ops unit_libm) (silence 32 44100) defaults32 = Some 264%Z /\
  264%Z = Qfloor (B2Q (SFmul prec emax (b32_of_int 44100) (b32_lit 6 1000))).
Proof.
  split; [reflexivity|].
  apply (@delaybufsize_truncates unit_libm (silence 32 44100) defaults32 264%Z eq_refl).
  vm_compute. discriminate.
Defined.

(** C3 fails as stated: with the default pre-delay (264 slots at 44100 Hz)
    and [wet = +0], which pins every finite gain to [1.0f], a unit impulse
    at sample 0 leaves the compressor at step 263, not at step 264.
    Whatever [<math.h>] computes, as long as the gain of step 263 is a
    finite number the output sample of step 263 is not the gain times the
    input of step [263 - 264]. *)
Lemma impulse_is_not_delayed_by_buffer_size :
  ~ exists (M : Libm) (uninit : float) (fresh out : sf_snd_st float) (h' : heap)
      (g : float),
      sf_compressor uninit fresh (impulse 288 44100)
        (with_wet (S754_zero false) defaults32) heap0 = Some (Some out, h') /\
      gain_trace uninit (impulse 288 44100) (with_wet (S754_zero false) defaults32)
        !! 263%nat = Some g /\
      is_finite g = true /\
      samples out !! 263%nat =
        Some (apply_gain g (input_at (samples (impulse 288 44100)) (263 - 264)%Z)).
Proof.
  intros (M & uninit & fresh & out & h' & g & Hrun & Hg & Hfin & Hclaim).
  destruct (sf_compressor_output uninit fresh (impulse 288 44100)
              (with_wet (S754_zero false) defaults32) heap0 264%Z
              (delaybufsize_defaults (impulse 288 44100) _ eq_refl)
              ltac:(lia) eq_refl ltac:(constructor))
    as (out' & h'' & Hrun' & _ & _ & _ & Hout).
  rewrite Hrun in Hrun'. injection Hrun' as <- <-.
  destruct (Hout 263%nat ltac:(vm_compute; lia)) as (g' & Hg' & Hon).
  rewrite Hg in Hg'. injection Hg' as <-.
  destruct (gain_trace_wet0 uninit (impulse 288 44100)
              (with_wet (S754_zero false) defaults32) 263%nat g eq_refl Hg)
    as [Hone | Hnan].
  - rewrite Hclaim, Hone in Hon. vm_compute in Hon. discriminate Hon.
  - rewrite Hnan in Hfin. discriminate Hfin.
Qed.

Lemma output_is_input_delayed_by_size_minus_1_witness :
  exists out h',
    @sf_compressor float (@ops unit_libm) S754_nan fresh0 (impulse 288 44100)
      defaults32 heap0 = Some (Some out, h') /\
    length (samples out) = 288%nat /\
    exists g,
      @gain_trace float (@ops unit_libm) S754_nan (impulse 288 44100) defaults32
        !! 263%nat = Some g /\
      samples out !! 263%nat = Some (@apply_gain float (@ops unit_libm) g one_sample).
Proof.
  destruct (@output_is_input_delayed_by_size_minus_1 float (@ops unit_libm) S754_nan
              fresh0 (impulse 288 44100) defaults32 heap0 264%Z)
    as (out & h' & Hrun & Hlen & Hout); [concrete..|].
  exists out, h'. split; [exact Hrun|]. split; [exact Hlen|].
  destruct (Hout 263%nat ltac:(vm_compute; lia)) as (g & Hg & _ & Hx).
  exists g. split; [exact Hg|]. apply (Hx 0%nat); [lia|reflexivity].
Defined.

Lemma allocation_failure_returns_null_witness :
  exists h',
    @sf_compressor float (@ops unit_libm) S754_nan fresh0 (silence 32 44100)
      defaults32 heap_refusing_second = Some (None, h') /\
    live h' = ∅.
Proof.
  apply (@allocation_failure_returns_null float (@ops unit_libm) S754_nan fresh0
           (silence 32 44100) defaults32 heap_refusing_second 264%Z).
  - reflexivity.
  - intros p Hp. by apply not_elem_of_empty in Hp.
  - right. left. reflexivity.
Defined.

Lemma leading_output_samples_are_zero_witness :
  exists out h',
    @sf_compressor float (@ops unit_libm) S754_nan fresh0 (impulse 288 44100)
      defaults32 heap0 = Some (Some out, h') /\
    exists o, samples out !! 262%nat = Some o /\ is_zero_sample o = true.
Proof.
  destruct (@leading_output_samples_are_zero unit_libm S754_nan fresh0
              (impulse 288 44100) defaults32 heap0 264%Z)
    as (out & h' & Hrun & Hout); [concrete..|].
  exists out, h'. split; [exact Hrun|].
  destruct (Hout 262%nat ltac:(vm_compute; lia) ltac:(lia))
    as (g & o & Hg & Ho & _ & Hz & _).
  exists o. split; [exact Ho|]. apply Hz.
  vm_compute in Hg. injection Hg as <-. reflexivity.
Defined.
End Binary32_facts.

(** ** Rounding in single precision

    [SFmul] and [SFadd] round the exact product and the exact sum to the
    nearest number, ties to even; rounding is monotone and leaves a
    well-formed number as it is.  This is what bounds the gain. *)

Module Rounding.
Import Binary32 Round.
Local Open Scope Z_scope.





Lemma pow2_lt (a b : Z) : 0 <= a < b -> 2 ^ a < 2 ^ b.
Proof. intros. apply Z.pow_lt_mono_r; lia. Qed.



(** ** Shifting right: [shr] keeps the quotient and where the remainder
    lies *)







(** ** What [binary_round_aux] returns *)





(** ** Order *)

Lemma SFleb_finite (m1 m2 : positive) (e1 e2 : Z) :
  SFleb (S754_finite false m1 e1) (S754_finite false m2 e2) = true <->
  e1 < e2 \/ (e1 = e2 /\ Z.pos m1 <= Z.pos m2).
Proof.
  unfold SFleb, SFcompare.
  change (PosDef.Pos.compare_cont Eq m1 m2) with (m1 ?= m2)%positive.
  destruct (Z.compare_spec e1 e2) as [He|He|He].
  - destruct (Pos.compare_spec m1 m2) as [Hm|Hm|Hm];
      (split; [intros; right; split; [done|lia]|try done; lia]).
  - split; [intros; by left|done].
  - split; [discriminate|lia].
Qed.







(** ** Well-formed numbers are their own rounding *)






(** ** [binary_round] *)







(** ** Comparison of well-formed numbers *)


Lemma SFleb_refl_finite (m : positive) (e : Z) :
  SFleb (S754_finite false m e) (S754_finite false m e) = true.
Proof. apply SFleb_finite. lia. Qed.

(** ** Multiplication *)




(** ** Addition *)



(** ** Products, sums and differences of numbers that are not negative *)

Lemma representable_cases (x : float) :
  representable x ->
  (exists s, x = S754_zero s) \/
  (exists m e, x = S754_finite false m e /\
               valid_binary prec emax (S754_finite false m e) = true).
Proof.
  intros (Hv & Hf & Hn). destruct x as [s|s| |[|] m e]; try discriminate.
  - left. by exists s.
  - right. by exists m, e.
Qed.


Lemma SFleb_zero_l (s : bool) (x : float) :
  representable x -> SFleb (S754_zero s) x = true.
Proof. intros (_ & Hf & Hn). by destruct x as [?| ?| |[|] ? ?]. Qed.

Lemma SFleb_refl_representable (x : float) : representable x -> SFleb x x = true.
Proof.
  intros Hx. destruct (representable_cases x Hx) as [[s ->]|(m & e & -> & _)].
  - reflexivity.
  - apply SFleb_refl_finite.
Qed.








End Rounding.

(** ** The gain: its bounds, and what overflows *)

Module Binary32_extremes.
Import Binary32 Examples Channels Extremes Rounded Round Rounding.

(** With [dry = +0] and [wet = 1.0f], a [mastergain] that is an infinity
    or a NaN makes the gain an infinity or a NaN, whatever [sinf]
    returns. *)
Lemma gain_overflow (mg pm : float) :
  is_finite mg = false ->
  is_finite (SFadd prec emax (S754_zero false)
               (SFmul prec emax (SFmul prec emax one mg) pm)) = false.
Proof.
  destruct mg as [s|s| |s m e]; try discriminate; intros _;
    destruct pm as [s'|s'| |s' m' e']; try reflexivity;
    destruct s; try destruct s'; reflexivity.
Qed.


Section With_libm.
Context {M : Libm}.
Local Open Scope cfloat_scope.

(** Each gain is the mix of [dry] and of what [sinf] returned. *)
Lemma envelope_samples_premix (cs : Run.constants float) params sdg rate e xs :
  Forall (fun g => exists c, g = gain_of cs params (premixgain_of cs c))
    (envelope_samples cs params sdg rate e xs).2.
Proof.
  revert e. induction xs as [|x xs IH]; intros e; [by constructor|].
  cbn [envelope_samples].
  destruct (envelope_sample cs params sdg rate e x) as [e' g] eqn:He.
  specialize (IH e').
  destruct (envelope_samples cs params sdg rate e' xs) as [e'' gs].
  cbn [fst Datatypes.snd] in *. constructor; [|exact IH].
  unfold envelope_sample in He. injection He as _ <-. eauto.
Qed.

Lemma gain_chunks_premix n (cs : Run.constants float) params e xs :
  Forall (fun g => exists c, g = gain_of cs params (premixgain_of cs c))
    (gain_chunks n cs params e xs).
Proof.
  revert e xs. induction n as [|n IH]; intros e xs; [by constructor|].
  cbn [gain_chunks]. apply Forall_app. split; [|apply IH].
  apply envelope_samples_premix.
Qed.

Lemma mastergain_overflow uninit (snd : sf_snd_st float) :
  powf_overflows M ->
  is_finite (Run.mastergain (run_constants uninit snd loud_params)) = false.
Proof.
  intros Hover. cbn [run_constants Run.mastergain].
  assert (db2lin (postgain loud_params) = S754_infinity false) as -> by exact Hover.
  change fmul with (SFmul prec emax).
  by destruct (powf _ _) as [[|]|[|]| |[|] m e].
Qed.

Lemma gain_trace_overflow uninit (snd : sf_snd_st float) (n : nat) (g : float) :
  powf_overflows M ->
  gain_trace uninit snd loud_params !! n = Some g ->
  is_finite g = false.
Proof.
  intros Hover Hgn.
  pose proof (gain_chunks_premix (Z.to_nat (chunks snd))
                (run_constants uninit snd loud_params) loud_params envelope0 (samples snd))
    as Hshape.
  rewrite Forall_lookup in Hshape.
  destruct (Hshape n g Hgn) as [c ->].
  unfold gain_of.
  change (Run.dry (run_constants uninit snd loud_params)) with (S754_zero false).
  change (wet loud_params) with one.
  apply gain_overflow. by apply mastergain_overflow.
Qed.


End With_libm.



(** C10 fails as stated: with a post-gain of 800 dB and the default
    pre-delay (264 slots), the first output sample is [+0] times a gain
    that is an infinity or a NaN, which is a NaN and not a zero.  There is
    no [<math.h>] in which [10^40] overflows and the first output sample
    of a successful run is a zero. *)
Lemma first_output_sample_is_nan_when_postgain_overflows :
  ~ exists (M : Libm) (uninit : float) (fresh : sf_snd_st float),
      powf_overflows M /\
      forall (out : sf_snd_st float) (h' : heap),
        sf_compressor uninit fresh (impulse 288 44100) loud_params heap0
          = Some (Some out, h') ->
        exists o, samples out !! 0%nat = Some o /\ is_zero_sample o = true.
Proof.
  intros (M & uninit & fresh & Hover & Hclaim).
  assert (delaybufsize (impulse 288 44100) loud_params = Some 264%Z) as HS
    by reflexivity.
  destruct (sf_compressor_output uninit fresh (impulse 288 44100) loud_params heap0 264%Z
              HS ltac:(lia) eq_refl ltac:(constructor))
    as (out & h' & Hrun & _ & _ & _ & Hout).
  destruct (Hclaim out h' Hrun) as (o & Ho & Hzero).
  destruct (Hout 0%nat ltac:(vm_compute; lia)) as (g & Hg & Hon).
  rewrite Ho in Hon. injection Hon as ->.
  rewrite input_at_early in Hzero by lia.
  change zero_sample with silent_sample in Hzero.
  rewrite (Binary32_facts.apply_gain_not_finite g
             (gain_trace_overflow uninit _ _ _ Hover Hg)) in Hzero.
  discriminate Hzero.
Qed.

(** C5 fails as stated: in single precision the curve is not
    non-decreasing.  With a threshold of -50 dB, a knee of 5 dB, a ratio of
    20, all within their ranges, and a correctly rounded [<math.h>], the
    curve at the upper end of the knee, [0x3bb8449c], where the ratio
    branch takes over, is [0x3b7d73bc], four units in the last place below
    its value [0x3b7d73c0] at the number just before, [0x3bb8449b], which
    the knee branch computes. *)
Lemma compcurve_decreases_at_the_end_of_the_knee :
  let cs := @run_constants float (@ops rounded_libm) S754_nan (silence 32 44100)
              knee_params in
  let curve := fun x : float =>
    @compcurve float (@ops rounded_libm) x (Run.k cs) (Run.slope cs)
      (Run.linearthreshold cs) (Run.linearthresholdknee cs) (threshold knee_params)
      (knee knee_params) (Run.kneedboffset cs) in
  let x := S754_finite false 12076187 (-31) in
  let y := S754_finite false 12076188 (-31) in
  defaults_in_range knee_params = true /\
  y = Run.linearthresholdknee cs /\
  SFltb x y = true /\
  curve x = S754_finite false 16610240 (-32) /\
  curve y = S754_finite false 16610236 (-32) /\
  SFltb (curve y) (curve x) = true.
Proof. vm_compute. repeat split; reflexivity. Qed.
End Binary32_extremes.

(** ** Exact arithmetic *)

Module Exact_facts.
Import Exact Examples.
Local Open Scope R_scope.

Lemma Rltb_true x y : x < y -> Rltb x y = true.
Proof. intros. unfold Rltb. by destruct (Rlt_dec x y). Qed.

Lemma Rltb_false x y : y <= x -> Rltb x y = false.
Proof. intros. unfold Rltb. destruct (Rlt_dec x y); [lra|done]. Qed.

Lemma Rleb_true x y : x <= y -> Rleb x y = true.
Proof. intros. unfold Rleb. by destruct (Rle_dec x y). Qed.

Lemma Rleb_false x y : y < x -> Rleb x y = false.
Proof. intros. unfold Rleb. destruct (Rle_dec x y); [lra|done]. Qed.

Lemma ln10_pos : 0 < ln 10.
Proof. rewrite <- ln_1. apply ln_increasing; lra. Qed.

Lemma db2lin_exact (y : real) : db2lin y = exp (y * (ln 10 / 20)).
Proof.
  unfold db2lin. cbn [powf flit fmul ops]. unfold Rpower.
  replace (10 / 1) with 10 by lra. f_equal. lra.
Qed.

Lemma lin2db_exact (x : real) : lin2db x = 20 * ln x / ln 10.
Proof. unfold lin2db. cbn [log10f flit fmul ops]. lra. Qed.

Lemma db2lin_pos (y : real) : 0 < db2lin y.
Proof. rewrite db2lin_exact. apply exp_pos. Qed.

Lemma db2lin_le (y z : real) : y <= z -> db2lin y <= db2lin z.
Proof.
  intros Hyz. rewrite !db2lin_exact. pose proof ln10_pos.
  destruct (Req_dec y z) as [->|Hne]; [lra|].
  left. apply exp_increasing. apply Rmult_lt_compat_r; lra.
Qed.

Lemma db2lin_lt (y z : real) : y < z -> db2lin y < db2lin z.
Proof.
  intros Hyz. rewrite !db2lin_exact. pose proof ln10_pos.
  apply exp_increasing. apply Rmult_lt_compat_r; lra.
Qed.

Lemma lin2db_db2lin (y : real) : lin2db (db2lin y) = y.
Proof.
  rewrite lin2db_exact, db2lin_exact, ln_exp. pose proof ln10_pos. field. lra.
Qed.

Lemma db2lin_lin2db (x : real) : 0 < x -> db2lin (lin2db x) = x.
Proof.
  intros Hx. rewrite db2lin_exact, lin2db_exact. pose proof ln10_pos.
  replace (20 * ln x / ln 10 * (ln 10 / 20)) with (ln x) by (field; lra).
  by apply exp_ln.
Qed.

Lemma lin2db_le (x y : real) : 0 < x -> x <= y -> lin2db x <= lin2db y.
Proof.
  intros Hx Hxy. rewrite !lin2db_exact. pose proof ln10_pos.
  assert (ln x <= ln y) as Hln.
  { destruct (Req_dec x y) as [->|Hne]; [lra|]. left. apply ln_increasing; lra. }
  apply Rmult_le_compat_r; [left; by apply Rinv_0_lt_compat|]. lra.
Qed.

(** The knee curve, in exact arithmetic. *)
Lemma kneecurve_exact (x k lt : real) :
  kneecurve x k lt = lt + (1 - exp (- k * (x - lt))) / k.
Proof. unfold kneecurve. cbn [expf flit fadd fsub fmul fdiv fneg ops]. f_equal. f_equal. lra. Qed.

Lemma kneecurve_at_threshold (k lt : real) : 0 < k -> kneecurve lt k lt = lt.
Proof.
  intros Hk. rewrite kneecurve_exact.
  replace (- k * (lt - lt)) with 0 by lra. rewrite exp_0. field. lra.
Qed.

Lemma kneecurve_le (x y k lt : real) :
  0 < k -> x <= y -> kneecurve x k lt <= kneecurve y k lt.
Proof.
  intros Hk Hxy. rewrite !kneecurve_exact.
  assert (exp (- k * (y - lt)) <= exp (- k * (x - lt))) as Hexp.
  { destruct (Req_dec x y) as [->|Hne]; [lra|]. left. apply exp_increasing. nra. }
  apply Rplus_le_compat_l. apply Rmult_le_compat_r; [left; by apply Rinv_0_lt_compat|]. lra.
Qed.

Lemma knee_search_pos (i : nat) (xknee lt slope k mink maxk : real) :
  0 < k -> 0 < mink -> 0 < maxk ->
  0 < knee_search i xknee lt slope k mink maxk.
Proof.
  revert k mink maxk. induction i as [|i IH]; intros k mink maxk Hk Hmin Hmax; [done|].
  cbn [knee_search]. destruct (kneeslope xknee k lt <? slope)%flt.
  - apply IH; [|done|done]. cbn [sqrtf fmul ops]. apply sqrt_lt_R0. nra.
  - apply IH; [|done|done]. cbn [sqrtf fmul ops]. apply sqrt_lt_R0. nra.
Qed.
Lemma glue_continuity_pt (g h : real -> real) (a x : real) :
  (x <= a -> continuity_pt g x) ->
  (a <= x -> continuity_pt h x) ->
  g a = h a ->
  continuity_pt (glue g h a) x.
Proof.
  intros Hg Hh Hgh. destruct (Rtotal_order x a) as [Hlt|[->|Hgt]].
  - apply (continuity_pt_locally_ext g (glue g h a) (a - x) x); [lra| |apply Hg; lra].
    intros y Hy. unfold glue. rewrite Rltb_true; [done|].
    unfold Rdist in Hy. apply Rabs_def2 in Hy. lra.
  - specialize (Hg ltac:(lra)). specialize (Hh ltac:(lra)).
    intros eps Heps.
    destruct (Hg eps Heps) as (d1 & Hd1 & Hg').
    destruct (Hh eps Heps) as (d2 & Hd2 & Hh').
    exists (Rmin d1 d2). split; [by apply Rmin_pos|].
    intros y [Hy1 Hy2]. cbn in *.
    assert (Rdist y a < d1) as Hyd1 by (eapply Rlt_le_trans; [exact Hy2|apply Rmin_l]).
    assert (Rdist y a < d2) as Hyd2 by (eapply Rlt_le_trans; [exact Hy2|apply Rmin_r]).
    unfold glue. rewrite (Rltb_false a a) by lra.
    destruct (Rlt_dec y a) as [Hya|Hya].
    + rewrite Rltb_true by done. rewrite <- Hgh. by apply Hg'.
    + rewrite Rltb_false by lra. by apply Hh'.
  - apply (continuity_pt_locally_ext h (glue g h a) (x - a) x); [lra| |apply Hh; lra].
    intros y Hy. unfold glue. rewrite Rltb_false; [done|].
    unfold Rdist in Hy. apply Rabs_def2 in Hy. lra.
Qed.

Lemma glue_monotone (D : real -> Prop) (g h : real -> real) (a : real) :
  D a ->
  (forall x y, D x -> x <= y -> y <= a -> g x <= g y) ->
  (forall x y, a <= x -> x <= y -> h x <= h y) ->
  g a = h a ->
  forall x y, D x -> x <= y -> glue g h a x <= glue g h a y.
Proof.
  intros Da Hg Hh Hgh x y Dx Hxy. unfold glue.
  destruct (Rlt_dec x a) as [Hxa|Hxa]; destruct (Rlt_dec y a) as [Hya|Hya].
  - rewrite !Rltb_true by done. apply Hg; [done|lra|lra].
  - rewrite Rltb_true, Rltb_false by lra.
    apply Rle_trans with (g a); [apply Hg; [done|lra|lra]|].
    rewrite Hgh. apply Hh; lra.
  - lra.
  - rewrite !Rltb_false by lra. apply Hh; lra.
Qed.

Lemma continuity_pt_ln (x : real) : 0 < x -> continuity_pt ln x.
Proof.
  intros Hx. apply derivable_continuous_pt. exists (/ x).
  by apply derivable_pt_lim_ln.
Qed.

Lemma powerlaw_continuity_pt (A s x : real) : 0 < x -> continuity_pt (powerlaw A s) x.
Proof.
  intros Hx.
  apply (continuity_pt_comp ln (fun u => exp (A + s * u)) x).
  - by apply continuity_pt_ln.
  - reg.
Qed.

Lemma powerlaw_le (A s x y : real) :
  0 <= s -> 0 < x -> x <= y -> powerlaw A s x <= powerlaw A s y.
Proof.
  intros Hs Hx Hxy. unfold powerlaw.
  assert (ln x <= ln y) as Hln.
  { destruct (Req_dec x y) as [->|Hne]; [lra|]. left. apply ln_increasing; lra. }
  assert (A + s * ln x <= A + s * ln y) as [Hlt| ->] by nra; [|lra].
  left. by apply exp_increasing.
Qed.

Lemma ratio_segment (A B s x : real) :
  db2lin (A + s * (lin2db x - B)) = powerlaw ((A - s * B) * (ln 10 / 20)) s x.
Proof.
  rewrite db2lin_exact, lin2db_exact. unfold powerlaw. pose proof ln10_pos.
  f_equal. field. lra.
Qed.
Lemma ratio_segment_knee (A B C s x : real) :
  db2lin (A + s * (lin2db x - B - C)) = powerlaw ((A - s * (B + C)) * (ln 10 / 20)) s x.
Proof.
  rewrite db2lin_exact, lin2db_exact. unfold powerlaw. pose proof ln10_pos.
  f_equal. field. lra.
Qed.

Lemma compcurve_glue (x k slope lt lthk T K kdo : real) :
  compcurve x k slope lt lthk T K kdo =
  glue (fun x => x)
    (fun x => if Rleb K 0 then db2lin (T + slope * (lin2db x - T))
              else glue (fun x => kneecurve x k lt)
                     (fun x => db2lin (kdo + slope * (lin2db x - T - K))) lthk x)
    lt x.
Proof.
  unfold compcurve, glue. cbn [fltb fleb flit fadd fsub fmul ops].
  replace (0 / 1) with 0 by lra. reflexivity.
Qed.

Lemma continuity_pt_ratio_segment (A B s x : real) :
  0 < x -> continuity_pt (fun x => db2lin (A + s * (lin2db x - B))) x.
Proof.
  intros Hx.
  apply (continuity_pt_locally_ext (powerlaw ((A - s * B) * (ln 10 / 20)) s) _ 1 x);
    [lra| |by apply powerlaw_continuity_pt].
  intros y _. by rewrite ratio_segment.
Qed.

Lemma continuity_pt_ratio_segment_knee (A B C s x : real) :
  0 < x -> continuity_pt (fun x => db2lin (A + s * (lin2db x - B - C))) x.
Proof.
  intros Hx.
  apply (continuity_pt_locally_ext (powerlaw ((A - s * (B + C)) * (ln 10 / 20)) s) _ 1 x);
    [lra| |by apply powerlaw_continuity_pt].
  intros y _. by rewrite ratio_segment_knee.
Qed.

Lemma continuity_pt_kneecurve (k lt x : real) :
  continuity_pt (fun x => kneecurve x k lt) x.
Proof.
  apply (continuity_pt_locally_ext (fun x => lt + (1 - exp (- k * (x - lt))) / k) _ 1 x);
    [lra| |reg].
  intros y _. by rewrite kneecurve_exact.
Qed.

Lemma continuity_pt_id (x : real) : continuity_pt (fun x => x) x.
Proof. reg. Qed.

(** The curve without a knee. *)
Lemma hard_curve (T slope : real) :
  0 <= slope ->
  let curve := glue (fun x => x) (fun x => db2lin (T + slope * (lin2db x - T))) (db2lin T) in
  (forall x, continuity_pt curve x) /\ (forall x y, x <= y -> curve x <= curve y).
Proof.
  intros Hs curve. pose proof (db2lin_pos T) as Hlt.
  assert (db2lin T = db2lin (T + slope * (lin2db (db2lin T) - T))) as Hjoin.
  { rewrite lin2db_db2lin. f_equal. lra. }
  split.
  - intros x. apply glue_continuity_pt; [intros _; apply continuity_pt_id| |exact Hjoin].
    intros Hx. apply continuity_pt_ratio_segment. lra.
  - intros x y Hxy. apply (glue_monotone (fun _ => True)); [done| | |exact Hjoin|done|done].
    + intros; lra.
    + intros u v Hu Huv. rewrite !ratio_segment. apply powerlaw_le; lra.
Qed.

(** The curve with a knee. *)
Lemma soft_curve (T K slope k : real) :
  0 <= slope -> 0 < k -> 0 < K ->
  let lt := db2lin T in
  let lthk := db2lin (T + K) in
  let kdo := lin2db (kneecurve lthk k lt) in
  let curve :=
    glue (fun x => x)
      (glue (fun x => kneecurve x k lt)
         (fun x => db2lin (kdo + slope * (lin2db x - T - K))) lthk) lt in
  (forall x, continuity_pt curve x) /\
  (forall x y, x <= y -> curve x <= curve y) /\
  kneecurve lthk k lt = db2lin (kdo + slope * (lin2db lthk - T - K)).
Proof.
  intros Hs Hk HK lt lthk kdo curve.
  pose proof (db2lin_pos T) as Hlt. fold lt in Hlt.
  assert (lt < lthk) as Hlthk by (apply db2lin_lt; lra).
  assert (lt <= kneecurve lthk k lt) as Hknee.
  { rewrite <- (kneecurve_at_threshold k lt Hk) at 1. apply kneecurve_le; lra. }
  assert (kneecurve lthk k lt = db2lin (kdo + slope * (lin2db lthk - T - K))) as Hjoin2.
  { unfold lthk at 2. rewrite lin2db_db2lin.
    replace (kdo + slope * (T + K - T - K)) with kdo by lra.
    unfold kdo. rewrite db2lin_lin2db; [done|lra]. }
  assert (lt = glue (fun x => kneecurve x k lt)
                 (fun x => db2lin (kdo + slope * (lin2db x - T - K))) lthk lt) as Hjoin1.
  { unfold glue. rewrite Rltb_true by done. by rewrite kneecurve_at_threshold. }
  split; [|split; [|exact Hjoin2]].
  - intros x. apply glue_continuity_pt; [intros _; apply continuity_pt_id| |exact Hjoin1].
    intros Hx. apply glue_continuity_pt; [intros _; apply continuity_pt_kneecurve| |exact Hjoin2].
    intros Hx'. apply continuity_pt_ratio_segment_knee. lra.
  - intros x y Hxy. apply (glue_monotone (fun _ => True)); [done| | |exact Hjoin1|done|done].
    + intros; lra.
    + intros u v Hu Huv.
      apply (glue_monotone (fun x => lt <= x)); [lra| | |exact Hjoin2|done|done].
      * intros a b _ Hab _. by apply kneecurve_le.
      * intros a b Ha Hab. rewrite !ratio_segment_knee. apply powerlaw_le; lra.
Qed.

(** C5, as amended: in exact arithmetic and for a positive ratio, the
    compression curve with the constants that [sf_compressor] derives from
    the parameters is continuous and non-decreasing (everywhere, so on
    [[0, +oo)] too), and at the upper end of the knee the knee branch and the
    ratio branch agree. *)
Theorem compcurve_continuous_and_monotone (uninit : real) (snd : sf_snd_st real)
    (params : sf_compressor_params_st real) :
  0 < ratio params ->
  let cs := run_constants uninit snd params in
  let curve := fun x : real =>
    compcurve x (Run.k cs) (Run.slope cs) (Run.linearthreshold cs)
      (Run.linearthresholdknee cs) (threshold params) (knee params)
      (Run.kneedboffset cs) in
  (forall x, continuity_pt curve x) /\
  (forall x y, x <= y -> curve x <= curve y) /\
  (0 < knee params ->
   kneecurve (Run.linearthresholdknee cs) (Run.k cs) (Run.linearthreshold cs) =
   db2lin (Run.kneedboffset cs +
           Run.slope cs * (lin2db (Run.linearthresholdknee cs) - threshold params
                           - knee params))).
Proof.
  intros Hratio cs curve.
  assert (0 <= Run.slope cs) as Hslope.
  { subst cs. cbn [run_constants Run.slope flit fdiv ops].
    replace (1 / 1 / ratio params) with (/ ratio params) by (field; lra).
    left. by apply Rinv_0_lt_compat. }
  destruct (Rle_dec (knee params) 0) as [Hno|Hknee].
  - assert (forall x, curve x =
              glue (fun x => x)
                (fun x => db2lin (threshold params +
                                  Run.slope cs * (lin2db x - threshold params)))
                (db2lin (threshold params)) x) as Hcurve.
    { intros x. unfold curve. rewrite compcurve_glue. unfold glue.
      by rewrite (Rleb_true _ _ Hno). }
    destruct (hard_curve (threshold params) (Run.slope cs) Hslope) as [Hcont Hmono].
    split; [|split].
    + intros x.
      eapply (continuity_pt_locally_ext _ curve 1 x); [lra| |apply Hcont].
      intros y _. by rewrite Hcurve.
    + intros x y Hxy. rewrite !Hcurve. by apply Hmono.
    + intros HK. lra.
  - assert (0 < knee params) as HK by lra.
    assert (Rltb (0 / 1) (knee params) = true) as Hhas by (apply Rltb_true; lra).
    assert (0 < Run.k cs) as Hk.
    { subst cs. cbn [run_constants Run.k fltb flit ops]. rewrite Hhas.
      apply knee_search_pos; cbn [of_int flit ops]; lra. }
    assert (Run.linearthresholdknee cs = db2lin (threshold params + knee params)) as Hlthk.
    { subst cs. cbn [run_constants Run.linearthresholdknee fltb flit fadd ops].
      by rewrite Hhas. }
    assert (Run.kneedboffset cs =
            lin2db (kneecurve (db2lin (threshold params + knee params)) (Run.k cs)
                      (db2lin (threshold params)))) as Hkdo.
    { subst cs. cbn [run_constants Run.kneedboffset Run.k fltb flit fadd ops].
      by rewrite Hhas. }
    assert (Run.linearthreshold cs = db2lin (threshold params)) as Hlin by done.
    assert (forall x, curve x =
              glue (fun x => x)
                (glue (fun x => kneecurve x (Run.k cs) (db2lin (threshold params)))
                   (fun x => db2lin (Run.kneedboffset cs +
                               Run.slope cs * (lin2db x - threshold params - knee params)))
                   (db2lin (threshold params + knee params)))
                (db2lin (threshold params)) x) as Hcurve.
    { intros x. unfold curve. rewrite compcurve_glue, Hlthk, Hlin. unfold glue.
      by rewrite (Rleb_false _ _ HK). }
    destruct (soft_curve (threshold params) (knee params) (Run.slope cs) (Run.k cs)
                Hslope Hk HK) as (Hcont & Hmono & Hjoin).
    rewrite <- Hkdo in Hcont, Hmono, Hjoin.
    split; [|split].
    + intros x.
      eapply (continuity_pt_locally_ext _ curve 1 x); [lra| |apply Hcont].
      intros y _. by rewrite Hcurve.
    + intros x y Hxy. rewrite !Hcurve. by apply Hmono.
    + intros _. rewrite Hlthk, Hlin. exact Hjoin.
Qed.
(** C8: in exact arithmetic the coefficients [a], [b], [c], [d] that
    [sf_compressor] computes give the cubic through [(0, y1)], [(1, y2)],
    [(2, y3)], [(3, y4)], where [yi] is the release time in samples times
    the i-th zone; and a cubic through these four points has these
    coefficients. *)
Theorem release_curve_interpolates (uninit : real) (snd : sf_snd_st real)
    (params : sf_compressor_params_st real) :
  let cs := run_constants uninit snd params in
  let releasesamples := IZR (rate snd) * release params in
  let y1 := releasesamples * releasezone1 params in
  let y2 := releasesamples * releasezone2 params in
  let y3 := releasesamples * releasezone3 params in
  let y4 := releasesamples * releasezone4 params in
  adaptivereleasecurve 0 (Run.a cs) (Run.b cs) (Run.c cs) (Run.d cs) = y1 /\
  adaptivereleasecurve 1 (Run.a cs) (Run.b cs) (Run.c cs) (Run.d cs) = y2 /\
  adaptivereleasecurve 2 (Run.a cs) (Run.b cs) (Run.c cs) (Run.d cs) = y3 /\
  adaptivereleasecurve 3 (Run.a cs) (Run.b cs) (Run.c cs) (Run.d cs) = y4 /\
  forall a' b' c' d' : real,
    adaptivereleasecurve 0 a' b' c' d' = y1 ->
    adaptivereleasecurve 1 a' b' c' d' = y2 ->
    adaptivereleasecurve 2 a' b' c' d' = y3 ->
    adaptivereleasecurve 3 a' b' c' d' = y4 ->
    a' = Run.a cs /\ b' = Run.b cs /\ c' = Run.c cs /\ d' = Run.d cs.
Proof.
  intros cs releasesamples y1 y2 y3 y4.
  subst cs. cbn [run_constants Run.a Run.b Run.c Run.d].
  fold releasesamples. unfold adaptivereleasecurve.
  cbn [fadd fsub fmul fdiv fneg flit of_int ops].
  fold releasesamples y1 y2 y3 y4.
  repeat split; try lra.
  all: intros a' b' c' d' H0 H1 H2 H3; lra.
Qed.

Lemma compcurve_continuous_and_monotone_witness :
  0 < ratio exact_defaults /\
  let cs := run_constants 0 exact_snd exact_defaults in
  forall x y, x <= y ->
    compcurve x (Run.k cs) (Run.slope cs) (Run.linearthreshold cs)
      (Run.linearthresholdknee cs) (threshold exact_defaults) (knee exact_defaults)
      (Run.kneedboffset cs)
    <= compcurve y (Run.k cs) (Run.slope cs) (Run.linearthreshold cs)
         (Run.linearthresholdknee cs) (threshold exact_defaults) (knee exact_defaults)
         (Run.kneedboffset cs).
Proof.
  assert (0 < ratio exact_defaults) as Hratio.
  { unfold exact_defaults, sf_compressor_defaults. cbn [ratio flit ops]. lra. }
  split; [exact Hratio|].
  exact (proj1 (proj2 (compcurve_continuous_and_monotone 0 exact_snd exact_defaults Hratio))).
Defined.
End Exact_facts.

(** * Further properties

    What the code shows beyond the sentences of its specification. *)

(** ** The edges of a run *)

Section Run_edges.
Context {F : Type} {FO : FloatOps F}.
Local Open Scope cfloat_scope.
Variable uninit : F.
Variable fresh : sf_snd_st F.

(** X1: when the product of rate and pre-delay truncates to 0 or to 1 and
    the sound has at least one chunk, the run has undefined behaviour: with
    no slot the first store is out of bounds, with one slot the read cursor
    starts at 1, outside of the buffer. *)
Theorem delay_buffer_below_two_slots_is_undefined snd params h size_buf :
  delaybufsize snd params = Some size_buf ->
  (0 <= size_buf < 2)%Z ->
  (32 <= size snd)%Z ->
  grants 3 h ->
  sf_compressor uninit fresh snd params h = None.
Proof. apply sf_compressor_small_delay_undefined. Qed.

(** X2: a run that succeeds has freed the delay buffer and leaves exactly
    two new blocks allocated, the sound object and its sample array; every
    block that was live before the call is still live. *)
Theorem success_frees_delay_buffer_and_keeps_two_blocks snd params h size_buf :
  delaybufsize snd params = Some size_buf ->
  (2 <= size_buf)%Z ->
  wf_snd snd ->
  wf_heap h ->
  grants 3 h ->
  exists out h',
    sf_compressor uninit fresh snd params h = Some (Some out, h') /\
    live h' = live h ∪ {[Datatypes.S (next_block h);
                         Datatypes.S (Datatypes.S (next_block h))]} /\
    (next_block h ∉ live h') /\
    (Datatypes.S (next_block h) ∉ live h) /\
    (Datatypes.S (Datatypes.S (next_block h)) ∉ live h).
Proof.
  intros HS Hge Hwf Hheap Hg.
  destruct (sf_compressor_run uninit fresh snd params h size_buf HS Hge Hwf Hg)
    as (h' & Hrun & Hlive).
  eexists _, h'. split; [exact Hrun|].
  assert (forall p, p ∈ live h -> p < next_block h)%nat as Hlt by apply Hheap.
  rewrite Hlive. split; [|split; [|split]].
  - apply set_eq. intros p. set_unfold. specialize (Hlt p). intuition lia.
  - set_unfold. intuition lia.
  - intros Hin. apply Hlt in Hin. lia.
  - intros Hin. apply Hlt in Hin. lia.
Qed.

(** X3: a sound of fewer than 32 samples has no chunk: the loop is not
    entered, no sample is read, and the call returns a sound whose sample
    array is empty, whatever the size of the delay buffer. *)
Theorem input_shorter_than_a_chunk_gives_empty_output snd params h size_buf :
  delaybufsize snd params = Some size_buf ->
  (0 <= size_buf)%Z ->
  (0 <= size snd < 32)%Z ->
  grants 3 h ->
  exists h',
    sf_compressor uninit fresh snd params h
      = Some (Some (mk_snd [] (size fresh) (rate fresh)), h').
Proof.
  intros HS Hge Hsz Hg. unfold sf_compressor. rewrite HS. cbn [mbind option_bind].
  destruct (malloc_granted size_buf h 2 ltac:(lia) Hg) as [-> Hg1].
  unfold sf_snd_new.
  destruct (malloc_granted 1 _ 1 ltac:(lia) Hg1) as [-> Hg2].
  assert (chunks snd = 0)%Z as Hch.
  { unfold chunks, samplesperchunk. apply Z.quot_small. lia. }
  rewrite Hch in *.
  destruct (malloc_granted (0 * samplesperchunk) _ 0 ltac:(lia) Hg2) as [-> _].
  cbn. eauto.
Qed.

(** X4: the array that a successful run fills has [32 * (size / 32)]
    cells: the whole chunks of the input, fewer than 32 samples short of
    it. *)
Theorem output_array_has_whole_chunks snd params h size_buf :
  delaybufsize snd params = Some size_buf ->
  (2 <= size_buf)%Z ->
  wf_snd snd ->
  grants 3 h ->
  exists out h',
    sf_compressor uninit fresh snd params h = Some (Some out, h') /\
    Z.of_nat (length (samples out)) = (32 * (size snd / 32))%Z /\
    (Z.of_nat (length (samples out)) <= size snd)%Z /\
    (size snd - Z.of_nat (length (samples out)) < 32)%Z.
Proof.
  intros HS Hge Hwf Hg.
  destruct (sf_compressor_output uninit fresh snd params h size_buf HS Hge Hwf Hg)
    as (out & h' & Hrun & Hlen & _).
  exists out, h'. split; [exact Hrun|].
  rewrite Hlen, (output_length_floor snd Hwf).
  assert (0 <= size snd)%Z by (unfold wf_snd in Hwf; lia).
  pose proof (Z.mul_div_le (size snd) 32 ltac:(lia)).
  pose proof (Z.mul_succ_div_gt (size snd) 32 ltac:(lia)). lia.
Qed.

(** X5: [sf_compressor] returns [NULL] only when one of its three
    allocations failed. *)
Theorem null_result_means_allocation_failure snd params h size_buf h' :
  delaybufsize snd params = Some size_buf ->
  sf_compressor uninit fresh snd params h = Some (None, h') ->
  allocation_fails size_buf snd h.
Proof.
  intros HS. unfold sf_compressor. rewrite HS. cbn [mbind option_bind].
  unfold allocation_fails.
  destruct (malloc_outcome size_buf h) as [[Hf _]|[Hok1 ->]]; [intros _; by left|].
  unfold sf_snd_new.
  destruct (malloc_outcome 1 (mk_heap ({[next_block h]} ∪ live h)
              (Datatypes.S (next_block h)) (tail (oracle h)))) as [[Hf ->]|[Hok2 ->]].
  { intros _. right. left. cbn [oracle] in Hf.
    destruct Hf as [Hf|Hf]; [lia|]. by destruct (oracle h). }
  cbn [live next_block oracle].
  destruct (malloc_outcome (chunks snd * samplesperchunk)
              (mk_heap ({[Datatypes.S (next_block h)]} ∪ ({[next_block h]} ∪ live h))
                 (Datatypes.S (Datatypes.S (next_block h))) (tail (tail (oracle h)))))
    as [[Hf ->]|[Hok3 ->]].
  { intros _. right. right. cbn [oracle] in Hf.
    destruct Hf as [Hf|Hf]; [by left|]. right. by destruct (oracle h) as [|? [|? ?]]. }
  destruct (chunk_loop _ _ _ _ _ _); cbn; discriminate.
Qed.

(** X6: the delay buffer is a ring.  After [n] chunks the write cursor is
    at [32 n mod size_buf], the read cursor one slot ahead of it, and slot
    [m mod size_buf] holds input sample [m] for each of the last
    [size_buf] positions [m] (silence for the positions before the first
    sample). *)
Theorem delay_buffer_holds_the_latest_inputs cs params snd size_buf (n : nat) :
  (2 <= size_buf)%Z ->
  (n * 32 <= length (samples snd))%nat ->
  exists st',
    chunk_loop n cs params snd size_buf (loop_state0 size_buf) = Some st' /\
    samplepos st' = (32 * Z.of_nat n)%Z /\
    delaywritepos st' = ((32 * Z.of_nat n) mod size_buf)%Z /\
    delayreadpos st' = ((32 * Z.of_nat n + 1) mod size_buf)%Z /\
    Z.of_nat (length (delaybuf st')) = size_buf /\
    forall m : Z, (32 * Z.of_nat n - size_buf <= m < 32 * Z.of_nat n)%Z ->
      delaybuf st' !! Z.to_nat (m mod size_buf) = Some (input_at (samples snd) m).
Proof.
  intros HS Hlen.
  destruct (chunk_loop_spec cs params snd size_buf n (loop_state0 size_buf) 0 HS
              (delay_inv_init size_buf (samples snd) HS))
    as (st' & Hrun & [Hpos Hw Hr Hl Hslots] & _).
  { change (Z.to_nat samplesperchunk) with 32%nat. lia. }
  change (Z.to_nat samplesperchunk) with 32%nat in *.
  replace (Z.of_nat (0 + n * 32)) with (32 * Z.of_nat n)%Z in * by lia.
  by exists st'.
Qed.
End Run_edges.

(** ** The meter *)

Section Meter_facts.
Context {F : Type} {FO : FloatOps F}.
Local Open Scope cfloat_scope.

Lemma envelope_sample_meter cs m params sdg rate e g x :
  exists g',
    envelope_sample (with_meterrelease m cs) params sdg rate
      (mk_envelope (detectoravg e) (compgain e) (maxcompdiffdb e) g) x
    = (mk_envelope (detectoravg (envelope_sample cs params sdg rate e x).1)
         (compgain (envelope_sample cs params sdg rate e x).1)
         (maxcompdiffdb (envelope_sample cs params sdg rate e x).1) g',
       (envelope_sample cs params sdg rate e x).2).
Proof. eexists. unfold envelope_sample. cbn. reflexivity. Qed.

Lemma sample_body_meter cs m params snd size_buf sdg rate st1 st2 :
  same_audio_path st1 st2 ->
  option_Forall2 same_audio_path
    (sample_body (with_meterrelease m cs) params snd size_buf sdg rate st1)
    (sample_body cs params snd size_buf sdg rate st2).
Proof.
  intros [g ->]. unfold sample_body. cbn [with_metergain samplepos delaybuf delaywritepos
    delayreadpos env out_samples].
  destruct (load (samples snd) (samplepos st2)) as [x|]; [|constructor].
  cbn [mbind option_bind].
  destruct (store (delaybuf st2) (delaywritepos st2) x) as [buf|]; [|constructor].
  cbn [mbind option_bind].
  destruct (envelope_sample_meter cs m params sdg rate (env st2) g x) as [g' ->].
  destruct (envelope_sample cs params sdg rate (env st2) x) as [e' gain].
  cbn [fst Datatypes.snd].
  destruct (load buf (delayreadpos st2)) as [delayed|]; [|constructor].
  cbn [mbind option_bind].
  destruct (int_rem (delayreadpos st2 + 1) size_buf) as [r|]; [|constructor].
  cbn [mbind option_bind].
  destruct (int_rem (delaywritepos st2 + 1) size_buf) as [w|]; [|constructor].
  cbn [mbind option_bind].
  constructor. by exists g'.
Qed.

Lemma sample_loop_meter cs m params snd size_buf sdg rate n :
  forall st1 st2,
  same_audio_path st1 st2 ->
  option_Forall2 same_audio_path
    (sample_loop n (with_meterrelease m cs) params snd size_buf sdg rate st1)
    (sample_loop n cs params snd size_buf sdg rate st2).
Proof.
  induction n as [|n IH]; intros st1 st2 Hst; [by constructor|].
  cbn [sample_loop].
  destruct (sample_body_meter cs m params snd size_buf sdg rate st1 st2 Hst)
    as [a b Hab|]; [|constructor].
  cbn [mbind option_bind]. by apply IH.
Qed.

Lemma chunk_body_meter cs m params snd size_buf st1 st2 :
  same_audio_path st1 st2 ->
  option_Forall2 same_audio_path
    (chunk_body (with_meterrelease m cs) params snd size_buf st1)
    (chunk_body cs params snd size_buf st2).
Proof.
  intros [g ->]. unfold chunk_body.
  change (chunk_rates (with_meterrelease m cs) (env (with_metergain g st2)))
    with (chunk_rates cs (env st2)).
  destruct (chunk_rates cs (env st2)) as [[sdg rate] m'].
  cbn [with_metergain samplepos delaybuf delaywritepos delayreadpos env out_samples
       detectoravg compgain maxcompdiffdb metergain].
  match goal with
  | |- option_Forall2 _ (mbind _ (sample_loop _ _ _ _ _ _ _ ?s1))
         (mbind _ (sample_loop _ _ _ _ _ _ _ ?s2)) =>
      destruct (sample_loop_meter cs m params snd size_buf sdg rate
                  (Z.to_nat samplesperchunk) s1 s2) as [a b Hab|];
        [by exists g| |constructor]
  end.
  cbn [mbind option_bind]. by constructor.
Qed.

Lemma chunk_loop_meter cs m params snd size_buf n :
  forall st1 st2,
  same_audio_path st1 st2 ->
  option_Forall2 same_audio_path
    (chunk_loop n (with_meterrelease m cs) params snd size_buf st1)
    (chunk_loop n cs params snd size_buf st2).
Proof.
  induction n as [|n IH]; intros st1 st2 Hst; [by constructor|].
  cbn [chunk_loop].
  destruct (chunk_body_meter cs m params snd size_buf st1 st2 Hst)
    as [a b Hab|]; [|constructor].
  cbn [mbind option_bind]. by apply IH.
Qed.

(** X7: the meter is an observer.  Neither the value of [metergain] on
    entry nor [meterrelease] changes what the loop writes to the output, or
    whether it runs into undefined behaviour. *)
Theorem meter_never_reaches_the_output cs m g params snd size_buf n st :
  out_samples <$> chunk_loop n (with_meterrelease m cs) params snd size_buf
                    (with_metergain g st)
  = out_samples <$> chunk_loop n cs params snd size_buf st.
Proof.
  destruct (chunk_loop_meter cs m params snd size_buf n (with_metergain g st) st
              ltac:(by exists g)) as [a b [g' ->]|]; [|done].
  by destruct b.
Qed.
End Meter_facts.

(** ** Causality *)

Section Causal_facts.
Context {F : Type} {FO : FloatOps F}.
Local Open Scope cfloat_scope.
Variable uninit : F.
Variable fresh : sf_snd_st F.

Lemma envelope_samples_prefix cs params sdg rate m :
  forall e (xs ys : list (sf_sample_st F)),
  take m xs = take m ys ->
  (m <= length xs)%nat -> (m <= length ys)%nat ->
  take m (envelope_samples cs params sdg rate e xs).2
    = take m (envelope_samples cs params sdg rate e ys).2.
Proof.
  induction m as [|m IH]; intros e xs ys Hxy Hx Hy; [done|].
  destruct xs as [|x xs]; [cbn in Hx; lia|].
  destruct ys as [|y ys]; [cbn in Hy; lia|].
  cbn in Hxy, Hx, Hy. injection Hxy as -> Hxy.
  cbn [envelope_samples].
  destruct (envelope_sample cs params sdg rate e y) as [e' gain].
  specialize (IH e' xs ys Hxy ltac:(lia) ltac:(lia)).
  destruct (envelope_samples cs params sdg rate e' xs) as [e1 g1].
  destruct (envelope_samples cs params sdg rate e' ys) as [e2 g2].
  cbn in *. by rewrite IH.
Qed.

Lemma gain_chunks_prefix cs params n1 :
  forall n2 m e (xs ys : list (sf_sample_st F)),
  take m xs = take m ys ->
  (m <= n1 * Z.to_nat samplesperchunk)%nat ->
  (m <= n2 * Z.to_nat samplesperchunk)%nat ->
  (n1 * Z.to_nat samplesperchunk <= length xs)%nat ->
  (n2 * Z.to_nat samplesperchunk <= length ys)%nat ->
  take m (gain_chunks n1 cs params e xs) = take m (gain_chunks n2 cs params e ys).
Proof.
  induction n1 as [|n1 IH]; intros n2 m e xs ys Hxy Hm1 Hm2 Hx Hy.
  { assert (m = 0)%nat as -> by lia. done. }
  destruct n2 as [|n2].
  { assert (m = 0)%nat as -> by lia. done. }
  cbn [gain_chunks].
  set (c := Z.to_nat samplesperchunk) in *.
  assert (c = 32)%nat as Hc by reflexivity.
  pose proof (envelope_samples_length cs params (chunk_rates cs e).1.1
                (chunk_rates cs e).1.2 (chunk_envelope cs e) (take c xs)) as Hlx.
  pose proof (envelope_samples_length cs params (chunk_rates cs e).1.1
                (chunk_rates cs e).1.2 (chunk_envelope cs e) (take c ys)) as Hly.
  rewrite length_take in Hlx, Hly.
  destruct (decide (m <= c)%nat) as [Hle|Hgt].
  - rewrite !take_app_le by lia.
    apply envelope_samples_prefix.
    + rewrite !take_take. replace (m `min` c)%nat with m by lia. done.
    + rewrite length_take. lia.
    + rewrite length_take. lia.
  - assert (take c xs = take c ys) as Hhead.
    { apply (f_equal (take c)) in Hxy. rewrite !take_take in Hxy.
      by replace (c `min` m)%nat with c in Hxy by lia. }
    rewrite Hhead in *.
    rewrite !take_app_ge by lia. f_equal. rewrite Hlx.
    replace (c `min` length xs)%nat with c by lia.
    apply IH.
    + rewrite !take_drop_commute. replace (c + (m - c))%nat with m by lia.
      by rewrite Hxy.
    + lia.
    + lia.
    + rewrite length_drop. lia.
    + rewrite length_drop. lia.
Qed.

Lemma input_at_prefix (xs ys : list (sf_sample_st F)) (m : nat) (i : Z) :
  take m xs = take m ys ->
  (i < Z.of_nat m)%Z ->
  input_at xs i = input_at ys i.
Proof.
  intros Hxy Hi. unfold input_at. case_bool_decide; [done|].
  rewrite <- (lookup_take_lt xs m), <- (lookup_take_lt ys m) by lia.
  by rewrite Hxy.
Qed.

(** X8: the compressor is causal.  Two sounds of the same rate that agree
    on their first [m] samples give, under the same parameters, outputs
    that agree on their first [m] samples, as far as both outputs reach;
    so what follows a sample, and the samples past the last whole chunk,
    never show in it. *)
Theorem output_prefix_depends_on_input_prefix snd1 snd2 params h1 h2 size_buf (m : nat) :
  rate snd1 = rate snd2 ->
  take m (samples snd1) = take m (samples snd2) ->
  (m <= output_length snd1)%nat ->
  (m <= output_length snd2)%nat ->
  delaybufsize snd1 params = Some size_buf ->
  (2 <= size_buf)%Z ->
  wf_snd snd1 -> wf_snd snd2 ->
  grants 3 h1 -> grants 3 h2 ->
  exists out1 out2 h1' h2',
    sf_compressor uninit fresh snd1 params h1 = Some (Some out1, h1') /\
    sf_compressor uninit fresh snd2 params h2 = Some (Some out2, h2') /\
    take m (samples out1) = take m (samples out2).
Proof.
  intros Hrate Hxy Hm1 Hm2 HS Hge Hwf1 Hwf2 Hg1 Hg2.
  assert (delaybufsize snd2 params = Some size_buf) as HS2.
  { unfold delaybufsize in *. by rewrite <- Hrate. }
  assert (run_constants uninit snd1 params = run_constants uninit snd2 params) as Hcs.
  { unfold run_constants. by rewrite Hrate. }
  destruct (sf_compressor_output uninit fresh snd1 params h1 size_buf HS Hge Hwf1 Hg1)
    as (out1 & h1' & Hrun1 & Hlen1 & _ & _ & Hout1).
  destruct (sf_compressor_output uninit fresh snd2 params h2 size_buf HS2 Hge Hwf2 Hg2)
    as (out2 & h2' & Hrun2 & Hlen2 & _ & _ & Hout2).
  exists out1, out2, h1', h2'. split; [done|]. split; [done|].
  pose proof (output_length_le snd1 Hwf1) as Hl1.
  pose proof (output_length_le snd2 Hwf2) as Hl2.
  assert (take m (gain_trace uninit snd1 params) = take m (gain_trace uninit snd2 params))
    as Hgains.
  { unfold gain_trace. rewrite Hcs. apply gain_chunks_prefix; try done.
    all: unfold output_length in *; lia. }
  apply list_eq. intros n.
  destruct (decide (n < m)%nat) as [Hn|Hn].
  - rewrite !lookup_take_lt by lia.
    destruct (Hout1 n ltac:(lia)) as (g1 & Hg1n & ->).
    destruct (Hout2 n ltac:(lia)) as (g2 & Hg2n & ->).
    assert (g1 = g2) as ->.
    { apply (f_equal (fun l => l !! n)) in Hgains.
      rewrite !lookup_take_lt in Hgains by lia. congruence. }
    f_equal. f_equal. apply (input_at_prefix _ _ m); [done|lia].
  - rewrite !lookup_take_ge by lia. done.
Qed.
End Causal_facts.

(** ** Single precision: order, signs and the two channels *)

Module Binary32_more.
Import Binary32 Channels Examples.

Lemma SFcompare_antisym (x y : float) :
  SFcompare y x = option_map CompOpp (SFcompare x y).
Proof.
  destruct x as [sx|sx| |sx mx ex], y as [sy|sy| |sy my ey]; cbn;
    try reflexivity; try (by destruct sx); try (by destruct sy);
    try (by destruct sx, sy).
  destruct sx, sy; cbn; try reflexivity.
  - rewrite (Z.compare_antisym ey ex).
    destruct (ey ?= ex)%Z; cbn; try reflexivity.
    change (Pos.compare_cont Eq my mx) with (my ?= mx)%positive.
    change (Pos.compare_cont Eq mx my) with (mx ?= my)%positive.
    rewrite (Pos.compare_antisym my mx). by destruct (my ?= mx)%positive.
  - rewrite (Z.compare_antisym ey ex).
    destruct (ey ?= ex)%Z; cbn; try reflexivity.
    change (Pos.compare_cont Eq my mx) with (my ?= mx)%positive.
    change (Pos.compare_cont Eq mx my) with (mx ?= my)%positive.
    rewrite (Pos.compare_antisym my mx). by destruct (my ?= mx)%positive.
Qed.

Lemma SFcompare_refl (x : float) :
  is_nan x = false -> SFcompare x x = Some Eq.
Proof.
  destruct x as [s|s| |s m e]; cbn; try done.
  - by destruct s.
  - intros _. rewrite Z.compare_refl.
    change (Pos.compare_cont Eq m m) with (m ?= m)%positive.
    rewrite Pos.compare_refl. by destruct s.
Qed.

Lemma SFcompare_Some (x y : float) :
  is_nan x = false -> is_nan y = false -> exists c, SFcompare x y = Some c.
Proof.
  destruct x as [sx|sx| |sx mx ex], y as [sy|sy| |sy my ey]; cbn; try done; eauto.
Qed.

Lemma SFcompare_Eq (x y : float) :
  SFcompare x y = Some Eq -> x = y \/ (is_zero x = true /\ is_zero y = true).
Proof.
  destruct x as [sx|sx| |sx mx ex], y as [sy|sy| |sy my ey]; cbn; intros H;
    try discriminate H; auto;
    repeat match goal with s : bool |- _ => destruct s end;
    try discriminate H; auto.
  - destruct (ex ?= ey)%Z eqn:He; try discriminate H.
    change (Pos.compare_cont Eq mx my) with (mx ?= my)%positive in H.
    destruct (mx ?= my)%positive eqn:Hm; try discriminate H.
    apply Z.compare_eq in He. apply Pos.compare_eq in Hm. subst. auto.
  - destruct (ex ?= ey)%Z eqn:He; try discriminate H.
    change (Pos.compare_cont Eq mx my) with (mx ?= my)%positive in H.
    destruct (mx ?= my)%positive eqn:Hm; try discriminate H.
    apply Z.compare_eq in He. apply Pos.compare_eq in Hm. subst. auto.
Qed.

Lemma SFleb_refl (x : float) : is_nan x = false -> SFleb x x = true.
Proof. intros H. unfold SFleb. by rewrite SFcompare_refl. Qed.

Lemma SFltb_false_SFleb (x y : float) :
  is_nan x = false -> is_nan y = false -> SFltb x y = false -> SFleb y x = true.
Proof.
  intros Hx Hy. unfold SFltb, SFleb. rewrite (SFcompare_antisym x y).
  destruct (SFcompare_Some x y Hx Hy) as [c ->]. by destruct c.
Qed.

Lemma SFltb_irrefl (x : float) : SFltb x x = false.
Proof.
  unfold SFltb. destruct x as [s|s| |s m e]; cbn; try done.
  - by destruct s.
  - rewrite Z.compare_refl.
    change (Pos.compare_cont Eq m m) with (m ?= m)%positive.
    rewrite Pos.compare_refl. by destruct s.
Qed.

Lemma is_nan_SFopp (x : float) : is_nan (SFopp x) = is_nan x.
Proof. by destruct x. Qed.

Lemma binary_round_aux_sign (s : bool) mx ex lx :
  is_nan (binary_round_aux prec emax s mx ex lx) = false ->
  sign_clear (binary_round_aux prec emax s mx ex lx) = negb s.
Proof.
  unfold binary_round_aux.
  destruct (shr_fexp prec emax mx ex lx) as [mrs' e'].
  destruct (shr_fexp prec emax _ e' loc_Exact) as [mrs'' e''].
  destruct (shr_m mrs''); [done| |done].
  by destruct (e'' <=? emax - prec)%Z.
Qed.

Lemma b32_of_int_sign (z : Z) :
  (0 <= z)%Z -> sign_clear (b32_of_int z) = true \/ is_nan (b32_of_int z) = true.
Proof.
  intros Hz. unfold b32_of_int, binary_normalize.
  destruct z as [|p|p]; [by left| |lia].
  unfold binary_round. destruct (shl_align p 0 _) as [mz ez].
  destruct (is_nan (binary_round_aux prec emax false (Z.pos mz) ez loc_Exact)) eqn:Hn;
    [by right|left]. by rewrite binary_round_aux_sign.
Qed.

Lemma SFmul_sign (x y : float) :
  sign_clear x = true -> sign_clear y = true ->
  is_nan (SFmul prec emax x y) = false ->
  sign_clear (SFmul prec emax x y) = true.
Proof.
  destruct x as [[|]|[|]| |[|] mx ex], y as [[|]|[|]| |[|] my ey];
    cbn [sign_clear negb SFmul xorb is_nan]; try done.
  intros _ _ Hn. by rewrite binary_round_aux_sign.
Qed.

Lemma b32_to_int_sign (x : float) (z : Z) :
  sign_clear x = true -> b32_to_int x = Some z -> (0 <= z)%Z.
Proof.
  destruct x as [s|s| |[|] m e]; cbn; try done.
  - intros _ [= <-]. lia.
  - intros _. case_bool_decide; [|done]. intros [= <-].
    apply Z.shiftl_nonneg. lia.
Qed.

Section With_libm.
Context {M : Libm}.
Local Open Scope cfloat_scope.
Variable uninit : float.
Variable fresh : sf_snd_st float.

(** X9: [absf] never returns a number below zero; it returns its argument
    or the opposite of it, and leaves a zero of either sign and a NaN as
    they are (so [absf (-0.0f)] is [-0.0f], where [fabsf] gives [+0.0f]). *)
Theorem absf_is_never_below_zero (v : float) :
  (absf v <? flit 0 1) = false /\
  (absf v = v \/ absf v = (- v)) /\
  (is_zero v = true -> absf v = v) /\
  (is_nan v = true -> absf v = v).
Proof.
  unfold absf. change (flit 0 1) with (S754_zero false).
  change fltb with SFltb. change fneg with SFopp.
  destruct v as [[|]|[|]| |[|] m e]; cbn; repeat split; auto; discriminate.
Qed.

(** X10: between two bounds in order, [clampf] maps every number to a
    number within the bounds, and a NaN to itself. *)
Theorem clampf_stays_within_bounds (v lo hi : float) :
  is_nan lo = false -> is_nan hi = false ->
  (lo <=? hi) = true ->
  (is_nan v = false ->
     (lo <=? clampf v lo hi) = true /\ (clampf v lo hi <=? hi) = true) /\
  (is_nan v = true -> clampf v lo hi = v).
Proof.
  intros Hlo Hhi Hle. unfold clampf.
  change fltb with SFltb. change fleb with SFleb in *. split.
  - intros Hv.
    destruct (SFltb v lo) eqn:H1.
    { split; [by apply SFleb_refl|done]. }
    destruct (SFltb hi v) eqn:H2.
    { split; [done|by apply SFleb_refl]. }
    split; apply SFltb_false_SFleb; assumption.
  - intros Hv. destruct v; try discriminate Hv. by destruct hi.
Qed.

Lemma envelope_sample_detectoravg (cs : Run.constants float) params sdg rate e x :
  (detectoravg (envelope_sample cs params sdg rate e x).1 >? flit 1 1) = false.
Proof.
  unfold envelope_sample. cbn [fst detectoravg].
  match goal with |- context [if ?c then flit 1 1 else ?d] => destruct c eqn:Hc end.
  - apply SFltb_irrefl.
  - exact Hc.
Qed.

Lemma sample_loop_detectoravg (cs : Run.constants float) params snd size_buf sdg rate n :
  forall st st',
  sample_loop n cs params snd size_buf sdg rate st = Some st' ->
  (detectoravg (env st) >? flit 1 1) = false ->
  (detectoravg (env st') >? flit 1 1) = false.
Proof.
  induction n as [|n IH]; intros st st' Hrun Hst.
  - cbn in Hrun. by injection Hrun as <-.
  - cbn [sample_loop] in Hrun.
    destruct (sample_body cs params snd size_buf sdg rate st) as [st1|] eqn:Hbody;
      [|discriminate Hrun].
    cbn [mbind option_bind] in Hrun. apply (IH st1 st' Hrun).
    unfold sample_body in Hbody.
    destruct (load (samples snd) (samplepos st)) as [x|]; [|discriminate Hbody].
    cbn [mbind option_bind] in Hbody.
    destruct (store (delaybuf st) (delaywritepos st) x) as [buf|]; [|discriminate Hbody].
    cbn [mbind option_bind] in Hbody.
    pose proof (envelope_sample_detectoravg cs params sdg rate (env st) x) as He.
    destruct (envelope_sample cs params sdg rate (env st) x) as [e' gain].
    destruct (load buf (delayreadpos st)) as [delayed|]; [|discriminate Hbody].
    cbn [mbind option_bind] in Hbody.
    destruct (int_rem (delayreadpos st + 1) size_buf) as [r|]; [|discriminate Hbody].
    cbn [mbind option_bind] in Hbody.
    destruct (int_rem (delaywritepos st + 1) size_buf) as [w|]; [|discriminate Hbody].
    cbn [mbind option_bind] in Hbody.
    injection Hbody as <-. exact He.
Qed.

(** X11: the detector average never gets above 1.  If it is not above 1
    when the chunk loop is entered (it is 0 at the start of a run), it is
    not above 1 when the loop is left, whatever [<math.h>] computes; it may
    be a NaN. *)
Theorem detector_average_never_exceeds_one (cs : Run.constants float) params snd
    size_buf n :
  forall st st',
  chunk_loop n cs params snd size_buf st = Some st' ->
  (detectoravg (env st) >? flit 1 1) = false ->
  (detectoravg (env st') >? flit 1 1) = false.
Proof.
  induction n as [|n IH]; intros st st' Hrun Hst.
  - cbn in Hrun. by injection Hrun as <-.
  - cbn [chunk_loop] in Hrun.
    destruct (chunk_body cs params snd size_buf st) as [st1|] eqn:Hbody;
      [|discriminate Hrun].
    cbn [mbind option_bind] in Hrun. apply (IH st1 st' Hrun).
    unfold chunk_body in Hbody.
    destruct (chunk_rates cs (env st)) as [[sdg rate] m'].
    match type of Hbody with
    | mbind _ (sample_loop ?k _ _ _ _ _ _ ?s) = _ =>
        destruct (sample_loop k cs params snd size_buf sdg rate s) as [st2|] eqn:Hloop;
          [|discriminate Hbody]
    end.
    cbn [mbind option_bind] in Hbody. injection Hbody as <-.
    apply (sample_loop_detectoravg _ _ _ _ _ _ _ _ _ Hloop). exact Hst.
Qed.

Lemma is_nan_absf (v : float) : is_nan (absf v) = is_nan v.
Proof.
  unfold absf. destruct (v <? flit 0 1); [apply is_nan_SFopp|done].
Qed.

Lemma is_zero_below_threshold (v : float) :
  is_zero v = true -> (v <? flit 1 10000) = true.
Proof. by destruct v. Qed.

Lemma attenuation_of_swap (cs : Run.constants float) params x :
  no_nan_sample x ->
  attenuation_of cs params (swap_channels x) = attenuation_of cs params x.
Proof.
  intros [Hl Hr]. unfold attenuation_of. cbn [swap_channels L R].
  rewrite <- is_nan_absf in Hl, Hr.
  set (a := absf (L x)) in *. set (b := absf (R x)) in *.
  change fltb with SFltb. unfold SFltb.
  rewrite (SFcompare_antisym a b).
  destruct (SFcompare_Some a b Hl Hr) as [c Hc]. rewrite Hc.
  destruct c; cbn [option_map CompOpp]; try reflexivity.
  destruct (SFcompare_Eq a b Hc) as [->|[Ha Hb]]; [reflexivity|].
  pose proof (is_zero_below_threshold a Ha) as Ha'.
  pose proof (is_zero_below_threshold b Hb) as Hb'.
  change fltb with SFltb in Ha', Hb'. unfold SFltb in Ha', Hb'.
  by rewrite Ha', Hb'.
Qed.

Lemma envelope_sample_swap (cs : Run.constants float) params sdg rate e x :
  no_nan_sample x ->
  envelope_sample cs params sdg rate e (swap_channels x)
    = envelope_sample cs params sdg rate e x.
Proof.
  intros Hx. unfold envelope_sample. by rewrite (attenuation_of_swap cs params x Hx).
Qed.

Lemma load_swap (a : list (sf_sample_st float)) i :
  load (swap_channels <$> a) i = swap_channels <$> load a i.
Proof.
  unfold load. rewrite length_fmap. case_bool_decide; [|done].
  by rewrite list_lookup_fmap.
Qed.

Lemma store_swap (a : list (sf_sample_st float)) i x :
  @store (sf_sample_st float) (swap_channels <$> a) i (swap_channels x)
    = option_map (fun buf : list (sf_sample_st float) => swap_channels <$> buf)
        (@store (sf_sample_st float) a i x).
Proof.
  unfold store. rewrite length_fmap. case_bool_decide; [|done].
  cbn. by rewrite list_fmap_insert.
Qed.

Lemma load_no_nan (a : list (sf_sample_st float)) i x :
  Forall no_nan_sample a -> load a i = Some x -> no_nan_sample x.
Proof.
  intros Ha. unfold load. case_bool_decide; [|discriminate].
  intros Hx. by apply (Forall_lookup_1 _ _ _ _ Ha Hx).
Qed.

Lemma sample_body_swap (cs : Run.constants float) params snd size_buf sdg rate st :
  Forall no_nan_sample (samples snd) ->
  sample_body cs params (swap_sound snd) size_buf sdg rate (swap_state st)
    = swap_state <$> sample_body cs params snd size_buf sdg rate st.
Proof.
  intros Hsnd. unfold sample_body.
  cbn [swap_sound swap_state samples samplepos delaybuf delaywritepos delayreadpos env
       out_samples].
  rewrite load_swap.
  destruct (load (samples snd) (samplepos st)) as [x|] eqn:Hx; [|done].
  cbn [fmap option_fmap option_map mbind option_bind].
  rewrite store_swap.
  destruct (store (delaybuf st) (delaywritepos st) x) as [buf|]; [|done].
  cbn [fmap option_fmap option_map mbind option_bind].
  rewrite (envelope_sample_swap cs params sdg rate (env st) x
             (load_no_nan _ _ _ Hsnd Hx)).
  destruct (envelope_sample cs params sdg rate (env st) x) as [e' gain].
  rewrite load_swap.
  destruct (load buf (delayreadpos st)) as [delayed|]; [|done].
  cbn [fmap option_fmap option_map mbind option_bind].
  destruct (int_rem (delayreadpos st + 1) size_buf) as [r|]; [|done].
  cbn [mbind option_bind].
  destruct (int_rem (delaywritepos st + 1) size_buf) as [w|]; [|done].
  cbn [mbind option_bind fmap option_fmap option_map].
  unfold swap_state. cbn [samplepos delaybuf delaywritepos delayreadpos env out_samples].
  by rewrite fmap_app.
Qed.

Lemma sample_loop_swap (cs : Run.constants float) params snd size_buf sdg rate n :
  forall st,
  Forall no_nan_sample (samples snd) ->
  sample_loop n cs params (swap_sound snd) size_buf sdg rate (swap_state st)
    = swap_state <$> sample_loop n cs params snd size_buf sdg rate st.
Proof.
  induction n as [|n IH]; intros st Hsnd; [done|].
  cbn [sample_loop]. rewrite (sample_body_swap _ _ _ _ _ _ _ Hsnd).
  destruct (sample_body cs params snd size_buf sdg rate st) as [st1|]; [|done].
  cbn [fmap option_fmap option_map mbind option_bind]. by apply IH.
Qed.

Lemma chunk_body_swap (cs : Run.constants float) params snd size_buf st :
  Forall no_nan_sample (samples snd) ->
  chunk_body cs params (swap_sound snd) size_buf (swap_state st)
    = swap_state <$> chunk_body cs params snd size_buf st.
Proof.
  intros Hsnd. unfold chunk_body. cbn [swap_state env].
  destruct (chunk_rates cs (env st)) as [[sdg rate] m'].
  cbn [samplepos delaybuf delaywritepos delayreadpos out_samples].
  match goal with
  | |- mbind _ (sample_loop ?k _ _ _ _ _ _ ?s) = _ =>
      change s with (swap_state (mk_loop (samplepos st) (delaywritepos st)
        (delayreadpos st) (delaybuf st)
        (mk_envelope (detectoravg (env st)) (compgain (env st)) m' (metergain (env st)))
        (out_samples st)))
  end.
  rewrite (sample_loop_swap _ _ _ _ _ _ _ _ Hsnd).
  by destruct (sample_loop _ _ _ _ _ _ _ _).
Qed.

Lemma chunk_loop_swap (cs : Run.constants float) params snd size_buf n :
  forall st,
  Forall no_nan_sample (samples snd) ->
  chunk_loop n cs params (swap_sound snd) size_buf (swap_state st)
    = swap_state <$> chunk_loop n cs params snd size_buf st.
Proof.
  induction n as [|n IH]; intros st Hsnd; [done|].
  cbn [chunk_loop]. rewrite (chunk_body_swap _ _ _ _ _ Hsnd).
  destruct (chunk_body cs params snd size_buf st) as [st1|]; [|done].
  cbn [fmap option_fmap option_map mbind option_bind]. by apply IH.
Qed.

(** X12: the two channels are treated alike.  On a sound without NaN,
    exchanging the channels of the input exchanges the channels of the
    output and changes nothing else: not the heap, not whether the run is
    defined. *)
Theorem swapping_channels_swaps_the_output snd params h :
  Forall no_nan_sample (samples snd) ->
  sf_compressor uninit fresh (swap_sound snd) params h
    = swap_result <$> sf_compressor uninit fresh snd params h.
Proof.
  intros Hsnd. unfold sf_compressor.
  change (delaybufsize (swap_sound snd) params) with (delaybufsize snd params).
  destruct (delaybufsize snd params) as [size_buf|]; [|done].
  cbn [mbind option_bind].
  destruct (malloc size_buf h) as [[p1|] h1]; [|done].
  destruct (sf_snd_new h1) as [[p2|] h2]; [|done].
  change (chunks (swap_sound snd)) with (chunks snd).
  destruct (malloc (chunks snd * samplesperchunk) h2) as [[p3|] h3]; [|done].
  change (run_constants uninit (swap_sound snd) params)
    with (run_constants uninit snd params).
  set (st0 := mk_loop 0 0 1 (replicate (Z.to_nat size_buf) zero_sample) envelope0 []).
  assert (chunk_loop (Z.to_nat (chunks snd)) (run_constants uninit snd params) params
            (swap_sound snd) size_buf st0
          = swap_state <$> chunk_loop (Z.to_nat (chunks snd))
              (run_constants uninit snd params) params snd size_buf st0) as ->.
  { rewrite <- (chunk_loop_swap _ _ _ _ _ _ Hsnd). f_equal.
    unfold swap_state, st0. cbn. by rewrite fmap_replicate. }
  by destruct (chunk_loop _ _ _ _ _ _).
Qed.

(** X13: the level detector is not symmetric on NaN.  It takes a NaN on
    the left channel for silence on the left channel, and answers a NaN on
    the right channel with an attenuation that is a NaN. *)
Theorem detector_ignores_nan_on_the_left_only (cs : Run.constants float) params
    (l r : float) :
  attenuation_of cs params (mk_sample S754_nan r)
    = attenuation_of cs params (mk_sample (S754_zero false) r) /\
  is_nan (attenuation_of cs params (mk_sample l S754_nan)) = true.
Proof.
  split.
  - unfold attenuation_of. cbn [L R].
    change (absf S754_nan) with (S754_nan : float).
    change (absf (S754_zero false)) with (S754_zero false : float).
    destruct (absf_is_never_below_zero r) as [Hr _].
    set (b := absf r) in *. change fltb with SFltb in *.
    change (flit 0 1) with (S754_zero false) in Hr.
    replace (SFltb b S754_nan) with false by (by destruct b).
    by rewrite Hr.
  - unfold attenuation_of. cbn [L R].
    change (absf S754_nan) with (S754_nan : float).
    replace (S754_nan <? absf l) with false by reflexivity.
    replace (S754_nan <? flit 1 10000) with false by reflexivity.
    change fdiv with (SFdiv prec emax).
    by destruct (compcurve _ _ _ _ _ _ _ _).
Qed.

(** X14: for a rate and a pre-delay that are not negative, the size of the
    delay buffer is not negative: [malloc] is never asked for a negative
    number of slots. *)
Theorem delaybufsize_is_not_negative (snd : sf_snd_st float) params size_buf :
  (0 <= rate snd)%Z ->
  sign_clear (predelay params) = true ->
  delaybufsize snd params = Some size_buf ->
  (0 <= size_buf)%Z.
Proof.
  intros Hrate Hpre. unfold delaybufsize.
  change to_int with b32_to_int. change fmul with (SFmul prec emax).
  change of_int with b32_of_int.
  intros HS. refine (b32_to_int_sign _ _ _ HS).
  destruct (is_nan (SFmul prec emax (b32_of_int (rate snd)) (predelay params))) eqn:Hn.
  { destruct (SFmul prec emax _ _); try discriminate Hn. discriminate HS. }
  destruct (b32_of_int_sign (rate snd) Hrate) as [Hs|Hnan].
  - by apply SFmul_sign.
  - destruct (b32_of_int (rate snd)); try discriminate Hnan. discriminate Hn.
Qed.

(** X15: each field of [sf_compressor_defaults] lies within the range
    that the comment beside it gives, and the four release zones
    increase. *)
Theorem defaults_are_within_their_ranges :
  defaults_in_range sf_compressor_defaults = true.
Proof. reflexivity. Qed.
End With_libm.

(** The hypotheses of the theorems above at concrete inputs. *)
Ltac evaluated :=
  first [reflexivity | lia | by repeat constructor
        | by intros p Hp; apply not_elem_of_empty in Hp].

Lemma delay_buffer_below_two_slots_is_undefined_witness :
  @delaybufsize float (@ops unit_libm) (silence 32 44100)
    (with_predelay (b32_lit 3 100000) defaults32) = Some 1%Z /\
  @sf_compressor float (@ops unit_libm) S754_nan fresh0 (silence 32 44100)
    (with_predelay (b32_lit 3 100000) defaults32) heap0 = None.
Proof.
  split; [reflexivity|].
  apply (@delay_buffer_below_two_slots_is_undefined float (@ops unit_libm) S754_nan
           fresh0 (silence 32 44100) (with_predelay (b32_lit 3 100000) defaults32)
           heap0 1%Z); evaluated.
Defined.

Lemma success_frees_delay_buffer_and_keeps_two_blocks_witness :
  exists out h',
    @sf_compressor float (@ops unit_libm) S754_nan fresh0 (silence 32 44100)
      defaults32 heap0 = Some (Some out, h') /\
    0%nat ∉ live h'.
Proof.
  destruct (@success_frees_delay_buffer_and_keeps_two_blocks float (@ops unit_libm)
              S754_nan fresh0 (silence 32 44100) defaults32 heap0 264%Z)
    as (out & h' & Hrun & _ & Hfreed & _); [evaluated..|].
  exists out, h'. split; [exact Hrun|exact Hfreed].
Defined.

Lemma input_shorter_than_a_chunk_gives_empty_output_witness :
  exists h',
    @sf_compressor float (@ops unit_libm) S754_nan fresh0 (silence 31 44100)
      defaults32 heap0 = Some (Some (mk_snd [] 0 0), h').
Proof.
  apply (@input_shorter_than_a_chunk_gives_empty_output float (@ops unit_libm)
           S754_nan fresh0 (silence 31 44100) defaults32 heap0 264%Z); evaluated.
Defined.

Lemma output_array_has_whole_chunks_witness :
  exists out h',
    @sf_compressor float (@ops unit_libm) S754_nan fresh0 (silence 70 44100)
      defaults32 heap0 = Some (Some out, h') /\
    length (samples out) = 64%nat.
Proof.
  destruct (@output_array_has_whole_chunks float (@ops unit_libm) S754_nan fresh0
              (silence 70 44100) defaults32 heap0 264%Z)
    as (out & h' & Hrun & Hlen & _); [evaluated..|].
  exists out, h'. split; [exact Hrun|].
  change (32 * (size (silence 70 44100) / 32))%Z with 64%Z in Hlen. lia.
Defined.

Lemma null_result_means_allocation_failure_witness :
  allocation_fails 264 (silence 32 44100) heap_refusing_second.
Proof.
  destruct (@sf_compressor float (@ops unit_libm) S754_nan fresh0 (silence 32 44100)
              defaults32 heap_refusing_second) as [[[out|] h']|] eqn:Hrun.
  - exfalso. vm_compute in Hrun. discriminate Hrun.
  - apply (@null_result_means_allocation_failure float (@ops unit_libm) S754_nan
             fresh0 (silence 32 44100) defaults32 heap_refusing_second 264%Z h');
      [reflexivity|exact Hrun].
  - exfalso. vm_compute in Hrun. discriminate Hrun.
Defined.

Lemma delay_buffer_holds_the_latest_inputs_witness :
  exists st',
    @chunk_loop float (@ops unit_libm) 2
      (@run_constants float (@ops unit_libm) S754_nan (impulse 64 44100) defaults32)
      defaults32 (impulse 64 44100) 264 (@loop_state0 float (@ops unit_libm) 264)
      = Some st' /\
    delaywritepos st' = 64%Z /\
    delayreadpos st' = 65%Z /\
    delaybuf st' !! 0%nat = Some one_sample.
Proof.
  destruct (@delay_buffer_holds_the_latest_inputs float (@ops unit_libm)
              (@run_constants float (@ops unit_libm) S754_nan (impulse 64 44100)
                 defaults32)
              defaults32 (impulse 64 44100) 264%Z 2%nat)
    as (st' & Hrun & _ & Hw & Hr & _ & Hslots); [evaluated..|].
  exists st'. split; [exact Hrun|]. split; [exact Hw|]. split; [exact Hr|].
  apply (Hslots 0%Z). lia.
Defined.

Lemma output_prefix_depends_on_input_prefix_witness :
  exists out1 out2 h1' h2',
    @sf_compressor float (@ops unit_libm) S754_nan fresh0 (impulse 32 44100)
      defaults32 heap0 = Some (Some out1, h1') /\
    @sf_compressor float (@ops unit_libm) S754_nan fresh0 (impulse 70 44100)
      defaults32 heap0 = Some (Some out2, h2') /\
    take 32 (samples out1) = take 32 (samples out2).
Proof.
  apply (@output_prefix_depends_on_input_prefix float (@ops unit_libm) S754_nan fresh0
           (impulse 32 44100) (impulse 70 44100) defaults32 heap0 heap0 264%Z 32%nat);
    first [evaluated | vm_compute; lia].
Defined.

Lemma clampf_stays_within_bounds_witness :
  SFleb (SFopp (b32_lit 12 1))
    (@clampf float (@ops unit_libm) (SFopp (b32_lit 40 1)) (SFopp (b32_lit 12 1))
       (b32_lit 0 1)) = true.
Proof.
  apply (@clampf_stays_within_bounds unit_libm (SFopp (b32_lit 40 1))
           (SFopp (b32_lit 12 1)) (b32_lit 0 1)); reflexivity.
Defined.

Lemma detector_average_never_exceeds_one_witness :
  exists st',
    @chunk_loop float (@ops unit_libm) 1
      (@run_constants float (@ops unit_libm) S754_nan (impulse 32 44100) defaults32)
      defaults32 (impulse 32 44100) 264 (@loop_state0 float (@ops unit_libm) 264)
      = Some st' /\
    SFltb (b32_lit 1 1) (detectoravg (env st')) = false.
Proof.
  destruct (@chunk_loop float (@ops unit_libm) 1
              (@run_constants float (@ops unit_libm) S754_nan (impulse 32 44100)
                 defaults32)
              defaults32 (impulse 32 44100) 264 (@loop_state0 float (@ops unit_libm) 264))
    as [st'|] eqn:Hrun.
  - exists st'. split; [reflexivity|].
    apply (@detector_average_never_exceeds_one unit_libm _ _ _ _ _ _ _ Hrun).
    reflexivity.
  - exfalso. vm_compute in Hrun. discriminate Hrun.
Defined.

Lemma swapping_channels_swaps_the_output_witness :
  @sf_compressor float (@ops unit_libm) S754_nan fresh0
    (swap_sound (left_impulse 44100)) defaults32 heap0
  = swap_result <$> @sf_compressor float (@ops unit_libm) S754_nan fresh0
                      (left_impulse 44100) defaults32 heap0.
Proof.
  apply (@swapping_channels_swaps_the_output unit_libm S754_nan fresh0
           (left_impulse 44100) defaults32 heap0).
  by repeat constructor.
Defined.

Lemma delaybufsize_is_not_negative_witness : (0 <= 264)%Z.
Proof.
  apply (@delaybufsize_is_not_negative unit_libm (silence 32 44100) defaults32 264%Z);
    evaluated.
Defined.
End Binary32_more.

(** ** Exact arithmetic: decibels and the knee *)

Module Exact_more.
Import Exact Examples Exact_facts.
Local Open Scope R_scope.

(** X16: in exact arithmetic [lin2db] and [db2lin] are inverse to one
    another, on all decibel values and on the positive linear values, and
    [db2lin] turns a sum of decibels into a product. *)
Theorem decibel_conversions_are_inverse :
  (forall y : real, lin2db (db2lin y) = y) /\
  (forall x : real, 0 < x -> db2lin (lin2db x) = x) /\
  (forall y z : real, db2lin (y + z) = db2lin y * db2lin z).
Proof.
  split; [exact lin2db_db2lin|]. split; [exact db2lin_lin2db|].
  intros y z. rewrite !db2lin_exact, <- exp_plus. f_equal. lra.
Qed.

Lemma knee_search_bracket (i : nat) (xknee lt slope : real) :
  forall k mink maxk : real,
  0 < mink -> mink <= k <= maxk ->
  mink <= knee_search i xknee lt slope k mink maxk <= maxk.
Proof.
  induction i as [|i IH]; intros k mink maxk Hmin Hk; [done|].
  cbn [knee_search].
  set (t := fltb (kneeslope xknee k lt) slope).
  set (mink' := if t then mink else k).
  set (maxk' := if t then k else maxk).
  assert (0 < mink' /\ mink <= mink' /\ mink' <= maxk' /\ maxk' <= maxk)
    as (H0 & H1 & H2 & H3).
  { unfold mink', maxk'. destruct t; lra. }
  assert (mink' <= sqrtf (fmul mink' maxk') <= maxk') as Hsq.
  { cbn [sqrtf fmul ops]. split.
    - rewrite <- (sqrt_square mink') at 1 by lra. apply sqrt_le_1_alt. nra.
    - rewrite <- (sqrt_square maxk') at 2 by lra. apply sqrt_le_1_alt. nra. }
  specialize (IH _ mink' maxk' H0 Hsq). lra.
Qed.

(** X17: in exact arithmetic the knee parameter [k] that [sf_compressor]
    settles on lies between 0.1 and 10000, the bounds of its search,
    whatever the parameters. *)
Theorem knee_parameter_is_bracketed (uninit : real) (snd : sf_snd_st real)
    (params : sf_compressor_params_st real) :
  1 / 10 <= Run.k (run_constants uninit snd params) <= 10000.
Proof.
  cbn [run_constants Run.k].
  destruct (fltb _ _).
  - pose proof (knee_search_bracket 15
      (db2lin (fadd (threshold params) (knee params))) (db2lin (threshold params))
      (fdiv (flit 1 1) (ratio params)) (of_int 5) (flit 1 10) (flit 10000 1)) as H.
    cbn [of_int flit ops] in *. lra.
  - cbn [of_int ops]. lra.
Qed.

Lemma kneecurve_derivative (k lt x : real) :
  k <> 0 ->
  derivable_pt_lim (fun x => kneecurve x k lt) x (exp (- k * (x - lt))).
Proof.
  intros Hk.
  assert (derivable_pt_lim
            (fct_cte lt + mult_real_fct (/ k)
               (fct_cte 1 - comp exp (mult_real_fct (- k) (id - fct_cte lt))))%F
            x (0 + / k * (0 - exp (- k * (x - lt)) * (- k * (1 - 0))))) as H.
  { apply derivable_pt_lim_plus; [apply derivable_pt_lim_const|].
    apply derivable_pt_lim_scal.
    apply derivable_pt_lim_minus; [apply derivable_pt_lim_const|].
    apply derivable_pt_lim_comp.
    - apply derivable_pt_lim_scal. apply derivable_pt_lim_minus;
        [apply derivable_pt_lim_id|apply derivable_pt_lim_const].
    - apply derivable_pt_lim_exp. }
  replace (0 + / k * (0 - exp (- k * (x - lt)) * (- k * (1 - 0))))
    with (exp (- k * (x - lt))) in H by (field; done).
  intros eps Heps. destruct (H eps Heps) as [delta Hd]. exists delta.
  intros h Hh Hlt. specialize (Hd h Hh Hlt).
  rewrite !kneecurve_exact.
  unfold plus_fct, mult_real_fct, minus_fct, fct_cte, comp, id in Hd.
  replace ((lt + (1 - exp (- k * (x + h - lt))) / k
            - (lt + (1 - exp (- k * (x - lt))) / k)) / h)
    with ((lt + / k * (1 - exp (- k * (x + h - lt)))
           - (lt + / k * (1 - exp (- k * (x - lt))))) / h) by (field; done).
  exact Hd.
Qed.

(** X18: in exact arithmetic, from the threshold on, [kneeslope] is the
    slope of [kneecurve] in log-log space: the curve is positive, its
    derivative at [x] is [exp (- k (x - linearthreshold))], and
    [kneeslope x] is [x] times this derivative over the value of the
    curve. *)
Theorem kneeslope_is_the_loglog_slope_of_kneecurve (k lt x : real) :
  0 < k -> 0 < lt -> lt <= x ->
  derivable_pt_lim (fun x => kneecurve x k lt) x (exp (- k * (x - lt))) /\
  0 < kneecurve x k lt /\
  kneeslope x k lt = x * exp (- k * (x - lt)) / kneecurve x k lt.
Proof.
  intros Hk Hlt Hx.
  assert (lt <= kneecurve x k lt) as Hknee.
  { rewrite <- (kneecurve_at_threshold k lt Hk) at 1. by apply kneecurve_le. }
  split; [apply kneecurve_derivative; lra|]. split; [lra|].
  rewrite kneecurve_exact in *.
  unfold kneeslope. cbn [expf flit of_int fadd fsub fmul fdiv fneg ops].
  replace (- k * (x - lt)) with (- (k * (x - lt))) in * by lra.
  rewrite exp_Ropp in *.
  pose proof (exp_pos (k * (x - lt))) as He.
  set (E := exp (k * (x - lt))) in *.
  assert (1 <= E) as HE.
  { unfold E. rewrite <- exp_0.
    destruct (Req_dec 0 (k * (x - lt))) as [<-|Hne]; [lra|].
    left. apply exp_increasing. nra. }
  assert (0 < k * lt) as Hklt by (by apply Rmult_lt_0_compat).
  assert (0 < k * lt * E) as HkltE by (by apply Rmult_lt_0_compat).
  assert (0 < (k * lt + 1 / 1) * E - 1) by lra.
  assert (lt + (1 - / E) / k <> 0) by lra.
  field. repeat split; try lra.
Qed.

Lemma kneeslope_is_the_loglog_slope_of_kneecurve_witness :
  0 < kneecurve 2 5 1.
Proof.
  apply (kneeslope_is_the_loglog_slope_of_kneecurve 5 1 2); lra.
Defined.
End Exact_more.
